(** * Uniswap v2 pairs tag module: [src/main.mts]

    A shallow embedding of the module that pages through the Uniswap v2
    subgraph and maps every pair to a contract tag, together with the
    properties of its specification.

    Modelling conventions.
    - A JavaScript string is a [string]: every character stands for one
      UTF-16 code unit, restricted to the code units 0..255 (so there are no
      surrogates).  [length] is the JavaScript [.length].
    - A JavaScript number that holds an integer is a [Z]; the conversions
      between numbers and strings are written out ([Number_toString],
      [parseInt]), including the switch to exponent notation at 10^21.
    - An [async] function is a function of the world it runs in: the console,
      the requests sent so far, and the answers the network gives. *)

From Stdlib Require Import ZArith NArith List String Ascii Bool Lia.
From Stdlib Require Import DecimalString DecimalPos DecimalN DecimalZ.
From Stdlib Require Import Sorting.Sorted.
Import ListNotations.

Local Open Scope list_scope.
Local Open Scope string_scope.

(** ** The JavaScript built-ins the module calls *)

Module JS.

(** *** Code units *)

Definition code (c : ascii) : N := N_of_ascii c.

(** WhiteSpace and LineTerminator code units (ECMAScript 12.2, 12.3) below
    256: TAB, LF, VT, FF, CR, SP, NBSP. *)
Definition isWhiteSpace (c : ascii) : bool :=
  let n := code c in
  ((9 <=? n) && (n <=? 13) || (n =? 32) || (n =? 160))%N.

Definition isDigit (c : ascii) : bool :=
  let n := code c in ((48 <=? n) && (n <=? 57))%N.

Definition digitValue (c : ascii) : N := (code c - 48)%N.

(** *** String.prototype methods *)

Fixpoint trimStart (s : string) : string :=
  match s with
  | String c s' => if isWhiteSpace c then trimStart s' else s
  | EmptyString => EmptyString
  end.

Fixpoint trimEnd (s : string) : string :=
  match s with
  | String c s' =>
      match trimEnd s' with
      | EmptyString => if isWhiteSpace c then EmptyString
                       else String c EmptyString
      | t => String c t
      end
  | EmptyString => EmptyString
  end.

(** [s.trim()] *)
Definition trim (s : string) : string := trimEnd (trimStart s).

(** The characters of [s] from index [n] on. *)
Fixpoint skip (n : nat) (s : string) : string :=
  match n, s with
  | O, _ => s
  | S n', String _ s' => skip n' s'
  | S _, EmptyString => EmptyString
  end.

(** [s.replace(pattern, replacement)] for a string pattern and a replacement
    free of [$]: only the first occurrence of the pattern is replaced. *)
Fixpoint replace (pattern replacement s : string) : string :=
  if prefix pattern s then replacement ++ skip (length pattern) s
  else match s with
       | String c s' => String c (replace pattern replacement s')
       | EmptyString => EmptyString
       end.

(** [s.substring(0, finish)]: a negative [finish] counts as 0, one past the
    end as the length. *)
Definition substring0 (finish : Z) (s : string) : string :=
  substring 0 (Z.to_nat finish) s.

(** [items.join(separator)] *)
Definition join (separator : string) (items : list string) : string :=
  concat separator items.

(** *** Numbers and strings *)

(** A number as the cursor holds it: an integer, or NaN. *)
Inductive number : Type :=
| Int (z : Z)
| NaN.

Fixpoint stripTrailingZeros (s : string) : string :=
  match s with
  | String c s' =>
      match stripTrailingZeros s' with
      | EmptyString => if Ascii.eqb c "0" then EmptyString
                       else String c EmptyString
      | t => String c t
      end
  | EmptyString => EmptyString
  end.

Definition decimalDigits (n : N) : string :=
  NilZero.string_of_uint (N.to_uint n).

(** [Number.prototype.toString] in exponent notation: one digit, the
    remaining significant digits after a point, the decimal exponent.  (For
    an integer that is a double with at most 17 significant digits, such as
    10^21, these are the digits JavaScript prints.) *)
Definition exponentNotation (n : N) : string :=
  match decimalDigits n with
  | String d rest =>
      let fraction := stripTrailingZeros rest in
      String d (match fraction with
                | EmptyString => EmptyString
                | _ => "." ++ fraction
                end)
      ++ "e+" ++ decimalDigits (N.of_nat (length rest))
  | EmptyString => EmptyString
  end.

(** [n.toString()] for an integer [n] (ECMAScript Number::toString, radix
    10): the decimal digits while |n| < 10^21, exponent notation from there
    on; a minus sign in front of a negative number. *)
Definition Number_toString (n : Z) : string :=
  let sign := if (n <? 0)%Z then "-" else "" in
  let m := Z.to_N (Z.abs n) in
  if (m <? 10 ^ 21)%N then sign ++ decimalDigits m
  else sign ++ exponentNotation m.

(** The value of the longest prefix of decimal digits of [s], continuing
    from [acc]; [None] when that prefix is empty and no digit came before. *)
Fixpoint parseDigits (seen : bool) (acc : N) (s : string) : option N :=
  match s with
  | String c s' =>
      if isDigit c then parseDigits true (10 * acc + digitValue c)%N s'
      else if seen then Some acc else None
  | EmptyString => if seen then Some acc else None
  end.

(** [parseInt(s, 10)]: leading white space is skipped, a sign is read, then
    the longest prefix of decimal digits; NaN when there is no digit. *)
Definition parseInt (s : string) : number :=
  match trimStart s with
  | String c s' =>
      if Ascii.eqb c "-" then
        match parseDigits false 0 s' with
        | Some n => Int (- Z.of_N n)
        | None => NaN
        end
      else if Ascii.eqb c "+" then
        match parseDigits false 0 s' with
        | Some n => Int (Z.of_N n)
        | None => NaN
        end
      else
        match parseDigits false 0 (String c s') with
        | Some n => Int (Z.of_N n)
        | None => NaN
        end
  | EmptyString => NaN
  end.

(** *** [Number(s)] for a string (ECMAScript StringToNumber) *)

Fixpoint allOf (p : ascii -> bool) (s : string) : bool :=
  match s with
  | String c s' => p c && allOf p s'
  | EmptyString => true
  end.

(** One or more characters, all in the class [p]. *)
Definition someOf (p : ascii -> bool) (s : string) : bool :=
  match s with
  | String _ _ => allOf p s
  | EmptyString => false
  end.

(** Reads the longest prefix of decimal digits: whether it is non-empty,
    and what follows it. *)
Fixpoint spanDigits (s : string) : bool * string :=
  match s with
  | String c s' => if isDigit c then (true, snd (spanDigits s'))
                   else (false, s)
  | EmptyString => (false, EmptyString)
  end.

Definition isBinaryDigit (c : ascii) : bool :=
  Ascii.eqb c "0" || Ascii.eqb c "1".

Definition isOctalDigit (c : ascii) : bool :=
  let n := code c in ((48 <=? n) && (n <=? 55))%N.

Definition isHexDigit (c : ascii) : bool :=
  let n := code c in
  (isDigit c || (65 <=? n) && (n <=? 70) || (97 <=? n) && (n <=? 102))%N.

Definition stripSign (s : string) : string :=
  match s with
  | String c s' => if Ascii.eqb c "+" || Ascii.eqb c "-" then s' else s
  | EmptyString => EmptyString
  end.

(** ExponentPart, or nothing. *)
Definition isExponentPartOpt (s : string) : bool :=
  match s with
  | String c s' =>
      (Ascii.eqb c "e" || Ascii.eqb c "E") && someOf isDigit (stripSign s')
  | EmptyString => true
  end.

Definition isStrUnsignedDecimalLiteral (s : string) : bool :=
  if String.eqb s "Infinity" then true
  else
    let (digits1, rest1) := spanDigits s in
    match rest1 with
    | String "." rest2 =>
        let (digits2, rest3) := spanDigits rest2 in
        (digits1 || digits2) && isExponentPartOpt rest3
    | _ => digits1 && isExponentPartOpt rest1
    end.

Definition isStrNumericLiteral (s : string) : bool :=
  match s with
  | String "0" (String x digits) =>
      if Ascii.eqb x "b" || Ascii.eqb x "B" then someOf isBinaryDigit digits
      else if Ascii.eqb x "o" || Ascii.eqb x "O" then someOf isOctalDigit digits
      else if Ascii.eqb x "x" || Ascii.eqb x "X" then someOf isHexDigit digits
      else isStrUnsignedDecimalLiteral s
  | _ => isStrUnsignedDecimalLiteral (stripSign s)
  end.

(** [isNaN(Number(s))]: [Number] of a string is NaN unless the string, white
    space at both ends removed, is empty or a StrNumericLiteral. *)
Definition isNaN_Number (s : string) : bool :=
  match trim s with
  | EmptyString => false
  | t => negb (isStrNumericLiteral t)
  end.

(** *** [encodeURIComponent] *)

Definition hexDigit (n : N) : ascii :=
  if (n <? 10)%N then ascii_of_N (48 + n) else ascii_of_N (55 + n).

(** One UTF-8 octet, percent-encoded. *)
Definition percent (octet : N) : string :=
  String "%" (String (hexDigit (octet / 16)) (String (hexDigit (octet mod 16)) "")).

(** uriUnreserved: letters, digits and [- _ . ! ~ * ' ( )]. *)
Definition isUnreserved (c : ascii) : bool :=
  let n := code c in
  (isDigit c || (65 <=? n) && (n <=? 90) || (97 <=? n) && (n <=? 122)
   || (n =? 45) || (n =? 95) || (n =? 46) || (n =? 33) || (n =? 126)
   || (n =? 42) || (n =? 39) || (n =? 40) || (n =? 41))%N.

(** A code unit below 128 is one UTF-8 octet, one from 128 to 255 is two. *)
Definition encodeUnit (c : ascii) : string :=
  let n := code c in
  if isUnreserved c then String c ""
  else if (n <? 128)%N then percent n
  else percent (192 + n / 64) ++ percent (128 + n mod 64).

Fixpoint encodeURIComponent (s : string) : string :=
  match s with
  | String c s' => encodeUnit c ++ encodeURIComponent s'
  | EmptyString => EmptyString
  end.

(** *** Thrown values *)

(** What a [throw] or a rejected promise carries: an object with a [name]
    and a string [message] (an [Error] and its subclasses), or any other
    value. *)
Inductive Thrown : Type :=
| ErrorObject (name message : string)
| OtherValue.

(** [new Error(message)] *)
Definition new_Error (message : string) : Thrown := ErrorObject "Error" message.

(** [Error.prototype.toString], as a template literal applies it. *)
Definition Error_toString (name message : string) : string :=
  match name, message with
  | EmptyString, _ => message
  | _, EmptyString => name
  | _, _ => name ++ ": " ++ message
  end.

(** *** Property lookup on an object literal *)

(** The properties every object literal inherits from [Object.prototype]. *)
Definition Object_prototype_names : list string :=
  [ "constructor"; "hasOwnProperty"; "isPrototypeOf"; "propertyIsEnumerable";
    "toLocaleString"; "toString"; "valueOf"; "__proto__";
    "__defineGetter__"; "__defineSetter__"; "__lookupGetter__";
    "__lookupSetter__" ].

(** What [object[key]] evaluates to: the value of an own property, an
    inherited method or accessor, or [undefined]. *)
Inductive Property (A : Type) : Type :=
| Own (value : A)
| Inherited
| Undefined.
Arguments Own {A} value.
Arguments Inherited {A}.
Arguments Undefined {A}.

Fixpoint ownProperty {A : Type} (object : list (string * A)) (key : string)
  : option A :=
  match object with
  | (k, v) :: object' => if String.eqb k key then Some v
                         else ownProperty object' key
  | [] => None
  end.

Definition get {A : Type} (object : list (string * A)) (key : string)
  : Property A :=
  match ownProperty object key with
  | Some v => Own v
  | None => if existsb (String.eqb key) Object_prototype_names
            then Inherited else Undefined
  end.

(** Only [undefined] is falsy among the three. *)
Definition truthy {A : Type} (p : Property A) : bool :=
  match p with
  | Undefined => false
  | _ => true
  end.

(** [Object.keys(object)], the own keys in the order they were written. *)
Definition Object_keys {A : Type} (object : list (string * A)) : list string :=
  map fst object.

End JS.

(** ** The module [main.mts] *)

Module Main.
Import JS.

(** *** Data *)

Record SubgraphUrls : Type := { decentralized : string }.

Definition SUBGRAPH_URLS : list (string * SubgraphUrls) :=
  [ ("1",
     {| decentralized :=
          "https://gateway-arbitrum.network.thegraph.com/api/[api-key]/deployments/id/QmZzsQGDmQFbzYkv2qx4pVnD6aVnuhKbD3t1ea7SAvV7zE" |}) ].

Record Token : Type := { token_id : string; name : string; symbol : string }.

Record Pair : Type :=
  { id : string; createdAtTimestamp : Z; token0 : Token; token1 : Token }.

(** [pairs] is read as optional: [fetchData] tests for it. *)
Record GraphQLData : Type := { pairs : option (list Pair) }.

Record GraphQLError : Type := { message : string }.

Record GraphQLResponse : Type :=
  { data : option GraphQLData; errors : option (list GraphQLError) }.

Record ContractTag : Type :=
  { Contract_Address : string;
    Public_Name_Tag : string;
    Project_Name : string;
    UI_Website_Link : string;
    Public_Note : string }.

(** *** Running asynchronous code *)

(** How an evaluation ends: with a value, with a thrown value (a rejected
    promise), or never, when it awaits a promise that does not settle. *)
Inductive Completion (A : Type) : Type :=
| Return (value : A)
| Throw (thrown : Thrown)
| Pending.
Arguments Return {A} value.
Arguments Throw {A} thrown.
Arguments Pending {A}.

(** What [fetch] resolves to: the two fields [fetchData] reads, and what
    [response.json()] settles to, read at the type [GraphQLResponse]. *)
Record Response : Type :=
  { ok : bool; status : Z; json : Completion GraphQLResponse }.

(** The POST request of [fetchData]: where it goes and the one variable of
    its body (the query text and the headers are constants). *)
Record Request : Type :=
  { request_url : string; variables_lastTimestamp : number }.

Inductive ConsoleEntry : Type :=
| console_error (text : string)
| console_log (text : string) (items : option (list string)).

Record World : Type :=
  { console : list ConsoleEntry; requests : list Request }.

Definition M (A : Type) : Type := World -> Completion A * World.

Definition ret {A : Type} (a : A) : M A := fun w => (Return a, w).

Definition throw {A : Type} (t : Thrown) : M A := fun w => (Throw t, w).

Definition bind {A B : Type} (m : M A) (k : A -> M B) : M B :=
  fun w =>
    match m w with
    | (Return a, w') => k a w'
    | (Throw t, w') => (Throw t, w')
    | (Pending, w') => (Pending, w')
    end.

(** [await] of a promise whose fate is given. *)
Definition await {A : Type} (c : Completion A) : M A := fun w => (c, w).

(** A call of a synchronous function that returns or throws. *)
Definition call {A : Type} (c : Completion A) : M A := fun w => (c, w).

(** [try { m } catch (error) { handler error }] *)
Definition try_catch {A : Type} (m : M A) (handler : Thrown -> M A) : M A :=
  fun w =>
    match m w with
    | (Throw t, w') => handler t w'
    | r => r
    end.

Definition log (entry : ConsoleEntry) : M unit :=
  fun w => (Return tt, {| console := (console w ++ [entry])%list; requests := requests w |}).

(** [await fetch(url, ...)]: the request goes out, the network answers. *)
Definition fetch (request : Request) (answer : Completion Response) : M Response :=
  fun w => (answer, {| console := console w; requests := (requests w ++ [request])%list |}).

Notation "x <- m ;; k" := (bind m (fun x => k))
  (at level 61, m at next level, right associativity).
Notation "m ;;; k" := (bind m (fun _ => k))
  (at level 61, right associativity).

(** [items.forEach(action)] *)
Fixpoint forEach {A : Type} (action : A -> M unit) (items : list A) : M unit :=
  match items with
  | item :: items' => action item ;;; forEach action items'
  | [] => ret tt
  end.

(** *** The functions of the module *)

Definition isError (e : Thrown) : bool :=
  match e with
  | ErrorObject _ _ => true
  | OtherValue => false
  end.

(** The rest of a match of [/<[^>]*>/] once [<] is read: [[^>]*] runs up to
    the first [>], which must be there. *)
Fixpoint matchTagRest (text : string) : bool :=
  match text with
  | String c text' => if Ascii.eqb c ">" then true else matchTagRest text'
  | EmptyString => false
  end.

(** [/<[^>]*>/.test(text)]: a match is tried at every position. *)
Fixpoint regexTagTest (text : string) : bool :=
  match text with
  | String c text' =>
      (Ascii.eqb c "<" && matchTagRest text') || regexTagTest text'
  | EmptyString => false
  end.

Definition containsHtmlOrMarkdown (text : string) : bool :=
  if regexTagTest text then true else false.

Definition fetchData (subgraphUrl : string) (lastTimestamp : number)
    (answer : Completion Response) : M (list Pair) :=
  response <- fetch {| request_url := subgraphUrl;
                       variables_lastTimestamp := lastTimestamp |} answer ;;
  if negb (ok response) then
    throw (new_Error ("HTTP error: " ++ Number_toString (status response)))
  else
    result <- await (json response) ;;
    match errors result with
    | Some errs =>
        forEach (fun error =>
                   log (console_error ("GraphQL error: " ++ message error)))
                errs ;;;
        throw (new_Error "GraphQL errors occurred: see logs for details.")
    | None =>
        match data result with
        | Some {| pairs := Some ps |} => ret ps
        | _ => throw (new_Error "No pairs data found.")
        end
    end.

Definition prepareUrl (chainId apiKey : string) : Completion string :=
  let urls := get SUBGRAPH_URLS chainId in
  if negb (truthy urls) || isNaN_Number chainId then
    let supportedChainIds := join ", " (Object_keys SUBGRAPH_URLS) in
    Throw (new_Error
             ("Unsupported or invalid Chain ID provided: " ++ chainId
              ++ ". Only the following values are accepted: "
              ++ supportedChainIds))
  else
    match urls with
    | Own u =>
        Return (replace "[api-key]" (encodeURIComponent apiKey) (decentralized u))
    | _ =>
        Throw (ErrorObject "TypeError"
                 "Cannot read properties of undefined (reading 'replace')")
    end.

Definition truncateString (text : string) (maxLength : Z) : string :=
  if (Z.of_nat (length text) >? maxLength)%Z then
    substring0 (maxLength - 3) text ++ "..."
  else text.

Definition token0Invalid (pair : Pair) : bool :=
  containsHtmlOrMarkdown (name (token0 pair))
  || containsHtmlOrMarkdown (symbol (token0 pair)).

Definition token1Invalid (pair : Pair) : bool :=
  containsHtmlOrMarkdown (name (token1 pair))
  || containsHtmlOrMarkdown (symbol (token1 pair)).

(** The callback of [pairs.forEach] in [transformPairsToTags], acting on
    the two arrays it fills. *)
Definition sortPair (filled : list Pair * list string) (pair : Pair)
  : list Pair * list string :=
  let (validPairs, rejectedNames) := filled in
  if token0Invalid pair || token1Invalid pair then
    let rejectedNames :=
      if token0Invalid pair then
        (rejectedNames
           ++ [(name (token0 pair) ++ ", Symbol: " ++ symbol (token0 pair))%string])%list
      else rejectedNames in
    let rejectedNames :=
      if token1Invalid pair then
        (rejectedNames
           ++ [(name (token1 pair) ++ ", Symbol: " ++ symbol (token1 pair))%string])%list
      else rejectedNames in
    (validPairs, rejectedNames)
  else ((validPairs ++ [pair])%list, rejectedNames).

(** The callback of [validPairs.map]. *)
Definition toTag (chainId : string) (pair : Pair) : ContractTag :=
  let maxSymbolsLength := 45%Z in
  let symbolsText :=
    trim (symbol (token0 pair)) ++ "/" ++ trim (symbol (token1 pair)) in
  let truncatedSymbolsText := truncateString symbolsText maxSymbolsLength in
  {| Contract_Address := "eip155:" ++ chainId ++ ":" ++ id pair;
     Public_Name_Tag := truncatedSymbolsText ++ " Pair";
     Project_Name := "Uniswap v2";
     UI_Website_Link := "https://uniswap.org";
     Public_Note :=
       "The pair contract on Uniswap v2 for the "
       ++ trim (replace "USD//C" "USDC" (name (token0 pair)))
       ++ " (" ++ trim (symbol (token0 pair)) ++ ") / "
       ++ trim (replace "USD//C" "USDC" (name (token1 pair)))
       ++ " (" ++ trim (symbol (token1 pair)) ++ ") pair." |}.

Definition transformPairsToTags (chainId : string) (pairs : list Pair)
  : M (list ContractTag) :=
  let (validPairs, rejectedNames) := fold_left sortPair pairs ([], []) in
  (if (0 <? List.length rejectedNames)%nat then
     log (console_log "Rejected token names due to HTML/Markdown content:"
            (Some rejectedNames))
   else ret tt) ;;;
  ret (map (toTag chainId) validPairs).

(** The variables of [returnTags] that the loop updates. *)
Record Locals : Type :=
  { lastTimestamp : number;
    allTags : list ContractTag;
    isMore : bool;
    counter : Z }.

(** The [try] block of the loop body, given the network's answer to its
    [fetch]. *)
Definition tryBlock (chainId url : string) (answer : Completion Response)
    (v : Locals) : M Locals :=
  pairs <- fetchData url (lastTimestamp v) answer ;;
  tags <- transformPairsToTags chainId pairs ;;
  let allTags := (allTags v ++ tags)%list in
  let counter := (counter v + 1)%Z in
  log (console_log ("Retrieved first " ++ Number_toString (counter * 1000)
                    ++ " entries...") None) ;;;
  let isMore := (List.length pairs =? 1000)%nat in
  if isMore then
    match nth_error pairs (List.length pairs - 1) with
    | Some lastPair =>
        ret {| lastTimestamp :=
                 parseInt (Number_toString (createdAtTimestamp lastPair));
               allTags := allTags; isMore := isMore; counter := counter |}
    | None =>
        throw (ErrorObject "TypeError"
                 "Cannot read properties of undefined (reading 'createdAtTimestamp')")
    end
  else
    ret {| lastTimestamp := lastTimestamp v;
           allTags := allTags; isMore := isMore; counter := counter |}.

(** The [catch] block of the loop body: [isError(error)] decides, and where
    it holds the error has a name and a message to print. *)
Definition catchBlock (error : Thrown) : M Locals :=
  match isError error, error with
  | true, ErrorObject errorName errorMessage =>
      log (console_error ("An error occurred: " ++ errorMessage)) ;;;
      throw (new_Error ("Failed fetching data: "
                        ++ Error_toString errorName errorMessage))
  | _, _ =>
      log (console_error "An unknown error occurred.") ;;;
      throw (new_Error "An unknown error occurred during fetch operation.")
  end.

(** [while (isMore) { try { ... } catch (error) { ... } }] followed by
    [return allTags].  Every turn of the loop awaits one [fetch]; [answers]
    are the network's answers to them, in order, and when they run out the
    next [fetch] stays pending. *)
Fixpoint whileIsMore (chainId url : string)
    (answers : list (Completion Response)) (v : Locals)
  : M (list ContractTag) :=
  if isMore v then
    match answers with
    | answer :: answers' =>
        v' <- try_catch (tryBlock chainId url answer v) catchBlock ;;
        whileIsMore chainId url answers' v'
    | [] => await Pending
    end
  else ret (allTags v).

Definition returnTags (answers : list (Completion Response))
    (chainId apiKey : string) : M (list ContractTag) :=
  let v := {| lastTimestamp := Int 0; allTags := []; isMore := true;
              counter := 0 |} in
  url <- call (prepareUrl chainId apiKey) ;;
  whileIsMore chainId url answers v.

End Main.

(** ** What the functions compute *)

Import JS Main.

(** The pairs [transformPairsToTags] keeps. *)
Definition pairIsValid (pair : Pair) : bool :=
  negb (token0Invalid pair || token1Invalid pair).

(** The names [transformPairsToTags] collects for its log. *)
Definition rejectedNamesOf (pairs : list Pair) : list string :=
  flat_map
    (fun pair =>
       (if token0Invalid pair
        then [(name (token0 pair) ++ ", Symbol: " ++ symbol (token0 pair))%string]
        else [])
       ++ (if token1Invalid pair
           then [(name (token1 pair) ++ ", Symbol: " ++ symbol (token1 pair))%string]
           else []))%list
    pairs.

(** What one call of [transformPairsToTags] writes to the console. *)
Definition rejectionLog (pairs : list Pair) : list ConsoleEntry :=
  match rejectedNamesOf pairs with
  | [] => []
  | names =>
      [console_log "Rejected token names due to HTML/Markdown content:"
         (Some names)]
  end.

(** The tags of one page. *)
Definition tagsOf (chainId : string) (pairs : list Pair) : list ContractTag :=
  map (toTag chainId) (filter pairIsValid pairs).

(** The world after [entries] went to the console and [sent] to the network. *)
Definition after (w : World) (entries : list ConsoleEntry) (sent : list Request)
  : World :=
  {| console := (console w ++ entries)%list;
     requests := (requests w ++ sent)%list |}.

(** ** Sample inputs *)

Definition emptyWorld : World := {| console := []; requests := [] |}.

Definition token (tokenName tokenSymbol : string) : Token :=
  {| token_id := "0x0"; name := tokenName; symbol := tokenSymbol |}.

Definition usdcWeth : Pair :=
  {| id := "0xb4e16d0168e52d35cacd2c6185b44281ec28c9dc";
     createdAtTimestamp := 1588610340;
     token0 := token "USD//C Coin" "USDC";
     token1 := token "Wrapped Ether" "WETH" |}.

(** The request [fetchData] sends. *)
Definition requestFor (url : string) (cursor : number) : Request :=
  {| request_url := url; variables_lastTimestamp := cursor |}.

(** The console lines [fetchData] writes for an error list. *)
Definition graphQLErrorLog (errs : list GraphQLError) : list ConsoleEntry :=
  map (fun error => console_error ("GraphQL error: " ++ message error)) errs.

Definition graphQLErrorsOccurred : Thrown :=
  new_Error "GraphQL errors occurred: see logs for details.".

Definition noPairsDataFound : Thrown := new_Error "No pairs data found.".

(** A response with a successful status and the given body. *)
Definition okResponse (body : GraphQLResponse) : Response :=
  {| ok := true; status := 200; json := Return body |}.

(** An answer that carries the page [ps]. *)
Definition page (ps : list Pair) : Completion Response :=
  Return (okResponse {| data := Some {| pairs := Some ps |}; errors := None |}).

(** The message of the error [prepareUrl] throws. *)
Definition unsupportedChainId (chainId : string) : Thrown :=
  new_Error ("Unsupported or invalid Chain ID provided: " ++ chainId
             ++ ". Only the following values are accepted: "
             ++ join ", " (Object_keys SUBGRAPH_URLS)).

(** The value [parseDigits] reaches on the digits [d], continuing from
    [acc]. *)
Fixpoint digitsValue (acc : N) (d : Decimal.uint) : N :=
  match d with
  | Decimal.Nil => acc
  | Decimal.D0 d' => digitsValue (10 * acc + 0) d'
  | Decimal.D1 d' => digitsValue (10 * acc + 1) d'
  | Decimal.D2 d' => digitsValue (10 * acc + 2) d'
  | Decimal.D3 d' => digitsValue (10 * acc + 3) d'
  | Decimal.D4 d' => digitsValue (10 * acc + 4) d'
  | Decimal.D5 d' => digitsValue (10 * acc + 5) d'
  | Decimal.D6 d' => digitsValue (10 * acc + 6) d'
  | Decimal.D7 d' => digitsValue (10 * acc + 7) d'
  | Decimal.D8 d' => digitsValue (10 * acc + 8) d'
  | Decimal.D9 d' => digitsValue (10 * acc + 9) d'
  end%N.

(** [pattern] occurs in [s]. *)
Definition Occurs (pattern s : string) : Prop :=
  exists before rest, s = before ++ pattern ++ rest.

(** [s] with its first occurrence of [pattern], if it has one, rewritten to
    [replacement]. *)
Inductive Rewritten (pattern replacement : string) : string -> string -> Prop :=
| rewritten_first (before rest : string) :
    (forall before' rest',
        before ++ pattern ++ rest = before' ++ pattern ++ rest' ->
        length before <= length before') ->
    Rewritten pattern replacement
      (before ++ pattern ++ rest) (before ++ replacement ++ rest)
| rewritten_none (s : string) :
    ~ Occurs pattern s -> Rewritten pattern replacement s s.

(** [text] has a substring that [/<[^>]*>/] matches: a [<], then characters
    other than [>], then a [>]. *)
Definition ContainsTag (text : string) : Prop :=
  exists before inside rest,
    text = before ++ "<" ++ inside ++ ">" ++ rest /\ ~ Occurs ">" inside.

(** The console line of the [catch] block, and the error it throws. *)
Definition catchLine (cause : Thrown) : ConsoleEntry :=
  match cause with
  | ErrorObject _ causeMessage =>
      console_error ("An error occurred: " ++ causeMessage)
  | OtherValue => console_error "An unknown error occurred."
  end.

Definition wrapped (cause : Thrown) : Thrown :=
  match cause with
  | ErrorObject causeName causeMessage =>
      new_Error ("Failed fetching data: " ++ Error_toString causeName causeMessage)
  | OtherValue => new_Error "An unknown error occurred during fetch operation."
  end.

(** The progress line after the page that made the counter [n]. *)
Definition retrievedLine (n : Z) : ConsoleEntry :=
  console_log ("Retrieved first " ++ Number_toString (n * 1000) ++ " entries...")
    None.

(** The locals after a page [ps] whose last record is [lastPair], or which
    is a short page. *)
Definition afterFullPage (chainId : string) (ps : list Pair) (lastPair : Pair)
    (v : Locals) : Locals :=
  {| lastTimestamp := parseInt (Number_toString (createdAtTimestamp lastPair));
     allTags := (allTags v ++ tagsOf chainId ps)%list;
     isMore := true;
     counter := (counter v + 1)%Z |}.

Definition afterShortPage (chainId : string) (ps : list Pair) (v : Locals)
  : Locals :=
  {| lastTimestamp := lastTimestamp v;
     allTags := (allTags v ++ tagsOf chainId ps)%list;
     isMore := false;
     counter := (counter v + 1)%Z |}.

(** The largest [createdAtTimestamp] of a page (0 for an empty page). *)
Definition maxTimestamp (ps : list Pair) : Z :=
  match map createdAtTimestamp ps with
  | [] => 0%Z
  | t :: ts => fold_left Z.max ts t
  end.

(** A decidable form of [Sorted Z.le]. *)
Fixpoint ascending (l : list Z) : bool :=
  match l with
  | a :: ((b :: _) as l') => (a <=? b)%Z && ascending l'
  | _ => true
  end.

(** The pair created at time [t]. *)
Definition pairAt (t : Z) : Pair :=
  {| id := "0x" ++ Number_toString t;
     createdAtTimestamp := t;
     token0 := token "Dai Stablecoin" "DAI";
     token1 := token "Wrapped Ether" "WETH" |}.

(** [count] pairs created at [start], [start + 1], ... *)
Definition pairsFrom (start : Z) (count : nat) : list Pair :=
  map (fun i => pairAt (start + Z.of_nat i)) (seq 0 count).

(** A full page whose last record was created at 10^21. *)
Definition farFuturePage : list Pair := (pairsFrom 1 999 ++ [pairAt (10 ^ 21)])%list.

(** The endpoint for the API key ["key"]. *)
Definition keyUrl : string :=
  "https://gateway-arbitrum.network.thegraph.com/api/key/deployments/id/QmZzsQGDmQFbzYkv2qx4pVnD6aVnuhKbD3t1ea7SAvV7zE".

(** ** Further notions for the properties of the code *)

(** The cursor the loop keeps after the full page [ps]: what [parseInt] reads
    in the printed timestamp of its last record. *)
Definition cursorAfter (ps : list Pair) : number :=
  parseInt (Number_toString (createdAtTimestamp (last ps usdcWeth))).


(** The characters [encodeURIComponent] can produce. *)
Definition isUriSafe (c : ascii) : bool := isUnreserved c || Ascii.eqb c "%".

(** The two parts of the endpoint template around [[api-key]]. *)
Definition endpointBeforeKey : string :=
  "https://gateway-arbitrum.network.thegraph.com/api/".

Definition endpointAfterKey : string :=
  "/deployments/id/QmZzsQGDmQFbzYkv2qx4pVnD6aVnuhKbD3t1ea7SAvV7zE".

(** A pair whose four fields pass the validator one by one. *)
Definition lessThanGreater : Pair :=
  {| id := "0x0d4a11d5eeaac28ec3f61d100daf4d40471f1852";
     createdAtTimestamp := 1588610341;
     token0 := token "Less Than" "LT<";
     token1 := token "Greater > Than" "GT" |}.


(** ** The claims that fail, as they are stated *)

(** Three pages of 1000, 1000 and 400 sorted records: three fetches, the
    cursor of the second and third being the maximum timestamp of the page
    before, and the tags of all three pages returned. *)
Definition pagination_as_stated (chainId apiKey : string) (p1 p2 p3 : list Pair)
  : Prop :=
  forall url answers w,
    prepareUrl chainId apiKey = Return url ->
    List.length p1 = 1000 -> List.length p2 = 1000 -> List.length p3 = 400 ->
    Sorted Z.le (map createdAtTimestamp p1) ->
    Sorted Z.le (map createdAtTimestamp p2) ->
    Sorted Z.le (map createdAtTimestamp p3) ->
    exists w',
      returnTags (page p1 :: page p2 :: page p3 :: answers) chainId apiKey w
      = (Return (tagsOf chainId p1 ++ tagsOf chainId p2 ++ tagsOf chainId p3)%list,
         w')
      /\ requests w'
         = (requests w
            ++ [requestFor url (Int 0);
                requestFor url (Int (maxTimestamp p1));
                requestFor url (Int (maxTimestamp p2))])%list.

(** Every error [returnTags] raises was logged by the [catch] block and is
    the wrapped error. *)
Definition error_policy_as_stated (answers : list (Completion Response))
    (chainId apiKey : string) (w : World) : Prop :=
  forall t w',
    returnTags answers chainId apiKey w = (Throw t, w') ->
    exists cause before,
      console w' = (before ++ [catchLine cause])%list /\ t = wrapped cause.

(** ** Strings *)

Section Strings.

Lemma length_append (s t : string) : length (s ++ t) = length s + length t.
Proof.
  induction s as [|c s IH]; simpl; [reflexivity | now rewrite IH].
Qed.

Lemma length_substring0 (n : nat) (s : string) :
  n <= length s -> length (substring 0 n s) = n.
Proof.
  revert s; induction n as [|n IH]; intros s Hn.
  - destruct s; reflexivity.
  - destruct s as [|c s]; simpl in *; [lia|].
    rewrite IH; [reflexivity | lia].
Qed.

Lemma prefix_substring0 (n : nat) (s : string) :
  prefix (substring 0 n s) s = true.
Proof.
  revert s; induction n as [|n IH]; intros s.
  - destruct s; reflexivity.
  - destruct s as [|c s]; simpl; [reflexivity|].
    destruct (ascii_dec c c) as [_|Hc]; [apply IH | now elim Hc].
Qed.

Lemma append_assoc (s t u : string) : (s ++ t) ++ u = s ++ t ++ u.
Proof.
  induction s as [|c s IH]; simpl; [reflexivity | now rewrite IH].
Qed.

Lemma prefix_iff (p s : string) :
  prefix p s = true <-> exists rest, s = p ++ rest.
Proof.
  revert s; induction p as [|c p IH]; intros s.
  - split; [intros _; exists s; reflexivity | intros _; destruct s; reflexivity].
  - destruct s as [|d s]; simpl.
    + split; [discriminate | intros [rest H]; discriminate].
    + destruct (ascii_dec c d) as [->|Hcd].
      * rewrite IH; split; intros [rest H]; exists rest;
          [now rewrite H | now injection H].
      * split; [discriminate | intros [rest H]; injection H; congruence].
Qed.

Lemma prefix_append (p s t : string) :
  prefix p s = true -> prefix p (s ++ t) = true.
Proof.
  rewrite !prefix_iff; intros [rest ->]; exists (rest ++ t).
  apply append_assoc.
Qed.

Lemma skip_append (p rest : string) : skip (length p) (p ++ rest) = rest.
Proof.
  induction p as [|c p IH]; simpl; [now destruct rest | exact IH].
Qed.

Lemma replace_eq (p r s : string) :
  replace p r s
  = if prefix p s then r ++ skip (length p) s
    else match s with
         | String c s' => String c (replace p r s')
         | EmptyString => EmptyString
         end.
Proof.
  destruct s; reflexivity.
Qed.

Lemma replace_here (p r rest : string) : replace p r (p ++ rest) = r ++ rest.
Proof.
  rewrite replace_eq.
  replace (prefix p (p ++ rest)) with true
    by (symmetry; apply prefix_iff; now exists rest).
  now rewrite skip_append.
Qed.

Lemma replace_later (p r : string) (c : ascii) (s : string) :
  prefix p (String c s) = false ->
  replace p r (String c s) = String c (replace p r s).
Proof.
  intros H; rewrite replace_eq, H; reflexivity.
Qed.

(** [replace] rewrites the first occurrence of the pattern and nothing
    else. *)
Lemma replace_Rewritten (p r s : string) : Rewritten p r s (replace p r s).
Proof.
  induction s as [|c s IH].
  - rewrite replace_eq.
    destruct (prefix p "") eqn:Hp.
    + apply prefix_iff in Hp as [rest Hrest].
      destruct p; [|discriminate]. destruct rest; [|discriminate].
      simpl. apply (rewritten_first "" r "" "").
      intros; simpl; lia.
    + apply rewritten_none. intros (before & rest & H).
      destruct before; [|discriminate]. simpl in H.
      destruct p; [discriminate Hp | discriminate H].
  - destruct (prefix p (String c s)) eqn:Hp.
    + apply prefix_iff in Hp as [rest Hrest]. rewrite Hrest, replace_here.
      apply (rewritten_first p r "" rest). intros; simpl; lia.
    + rewrite replace_later by exact Hp.
      assert (Hnot : forall rest, String c s <> p ++ rest).
      { intros rest H.
        assert (prefix p (String c s) = true) by (apply prefix_iff; eauto).
        congruence. }
      clear Hp. revert Hnot IH. generalize (replace p r s) as out.
      intros out Hnot IH.
      destruct IH as [before rest Hfirst | s Hnone].
      * apply (rewritten_first p r (String c before) rest).
        intros [|d before'] rest' H.
        -- exfalso. apply (Hnot rest'). exact H.
        -- simpl in H. injection H as _ H. apply Hfirst in H. simpl; lia.
      * apply rewritten_none.
        intros ([|d before] & rest & H).
        -- apply (Hnot rest). exact H.
        -- simpl in H. injection H as _ H. apply Hnone. now exists before, rest.
Qed.

End Strings.

(** [trim] and [replace] commute when neither the pattern nor the replacement
    starts or ends with white space. *)
Section TrimReplace.

Variables p r : string.
Hypothesis p_start : forall rest, trimStart (p ++ rest) = p ++ rest.
Hypothesis r_start : forall rest, trimStart (r ++ rest) = r ++ rest.
Hypothesis p_end : forall rest, trimEnd (p ++ rest) = p ++ trimEnd rest.
Hypothesis r_end : forall rest, trimEnd (r ++ rest) = r ++ trimEnd rest.

Lemma pattern_not_in_empty : prefix p "" = false.
Proof.
  destruct (prefix p "") eqn:H; [|reflexivity].
  apply prefix_iff in H as [rest H].
  destruct p; [|discriminate].
  specialize (p_start " "); discriminate.
Qed.

Lemma replace_empty : replace p r "" = "".
Proof.
  now rewrite replace_eq, pattern_not_in_empty.
Qed.

Lemma replace_nonempty (c : ascii) (s : string) : replace p r (String c s) <> "".
Proof.
  rewrite replace_eq. destruct (prefix p (String c s)); [|discriminate].
  destruct r; [specialize (r_start " "); discriminate | discriminate].
Qed.

Lemma trimStart_replace (s : string) :
  trimStart (replace p r s) = replace p r (trimStart s).
Proof.
  induction s as [|c s IH].
  - cbn [trimStart trimEnd]. now rewrite !replace_empty.
  - destruct (prefix p (String c s)) eqn:Hp.
    + apply prefix_iff in Hp as [rest ->].
      now rewrite replace_here, r_start, p_start, replace_here.
    + rewrite replace_later by exact Hp. simpl.
      destruct (isWhiteSpace c); [exact IH | now rewrite replace_later].
Qed.

Lemma trimEnd_is_prefix (s : string) : exists rest, s = trimEnd s ++ rest.
Proof.
  induction s as [|c s [rest IH]]; [now exists ""|]. simpl.
  destruct (trimEnd s) as [|d t].
  - destruct (isWhiteSpace c); [now exists (String c s) | now exists s].
  - exists rest. simpl in *. now rewrite <- IH.
Qed.

Lemma trimEnd_replace (s : string) :
  trimEnd (replace p r s) = replace p r (trimEnd s).
Proof.
  induction s as [|c s IH].
  - cbn [trimStart trimEnd]. now rewrite !replace_empty.
  - destruct (prefix p (String c s)) eqn:Hp.
    + apply prefix_iff in Hp as [rest ->].
      now rewrite replace_here, r_end, p_end, replace_here.
    + rewrite replace_later by exact Hp.
      change (trimEnd (String c (replace p r s)))
        with (match trimEnd (replace p r s) with
              | EmptyString => if isWhiteSpace c then EmptyString
                               else String c EmptyString
              | t => String c t
              end).
      rewrite IH.
      destruct (trimEnd_is_prefix s) as [rest Hrest].
      simpl trimEnd.
      destruct (trimEnd s) as [|d t].
      * rewrite replace_empty.
        destruct (isWhiteSpace c); [now rewrite replace_empty|].
        rewrite replace_later, replace_empty; [reflexivity|].
        destruct (prefix p (String c "")) eqn:Hc; [|reflexivity].
        apply (prefix_append _ _ s) in Hc.
        change (String c "" ++ s) with (String c s) in Hc. congruence.
      * assert (Hcd : prefix p (String c (String d t)) = false).
        { destruct (prefix p (String c (String d t))) eqn:Hc; [|reflexivity].
          apply (prefix_append _ _ rest) in Hc.
          change (String c (String d t) ++ rest)
            with (String c (String d t ++ rest)) in Hc.
          rewrite <- Hrest in Hc. congruence. }
        rewrite (replace_later _ _ c) by exact Hcd.
        pose proof (replace_nonempty d t) as Hne.
        destruct (replace p r (String d t)); [now elim Hne | reflexivity].
Qed.

Lemma trim_replace (s : string) : trim (replace p r s) = replace p r (trim s).
Proof.
  unfold trim. now rewrite trimStart_replace, trimEnd_replace.
Qed.

End TrimReplace.

Lemma trim_replace_USDC (s : string) :
  trim (replace "USD//C" "USDC" s) = replace "USD//C" "USDC" (trim s).
Proof.
  apply trim_replace; intros rest; try reflexivity;
    simpl; destruct (trimEnd rest); reflexivity.
Qed.

(** ** Numbers and their decimal digits *)

Section Numbers.

Lemma parseDigits_seen (acc : N) (d : Decimal.uint) :
  parseDigits true acc (NilEmpty.string_of_uint d) = Some (digitsValue acc d).
Proof.
  revert acc; induction d; intros acc; simpl; try reflexivity; apply IHd.
Qed.

Lemma parseDigits_uint (d : Decimal.uint) :
  d <> Decimal.Nil ->
  parseDigits false 0 (NilEmpty.string_of_uint d) = Some (digitsValue 0 d).
Proof.
  destruct d; intros Hd; [now elim Hd | ..];
    cbn [NilEmpty.string_of_uint parseDigits];
    match goal with
    | |- (if isDigit ?c then _ else _) = _ =>
        change (isDigit c) with true; cbv iota
    end;
    cbn [digitsValue]; apply parseDigits_seen.
Qed.

Lemma digitsValue_pos (p : positive) (d : Decimal.uint) :
  digitsValue (Npos p) d = Npos (Pos.of_uint_acc d p).
Proof.
  revert p; induction d; intros p; cbn [digitsValue Pos.of_uint_acc];
    try reflexivity; rewrite <- IHd; f_equal; lia.
Qed.

Lemma digitsValue_of_uint (d : Decimal.uint) : digitsValue 0 d = N.of_uint d.
Proof.
  induction d; simpl; try reflexivity; try apply digitsValue_pos.
  exact IHd.
Qed.

Lemma to_uint_nonnil (n : N) : N.to_uint n <> Decimal.Nil.
Proof.
  destruct n as [|p]; [discriminate | apply Unsigned.to_uint_nonnil].
Qed.

Lemma parseDigits_decimalDigits (n : N) :
  parseDigits false 0 (decimalDigits n) = Some n.
Proof.
  unfold decimalDigits, NilZero.string_of_uint.
  pose proof (to_uint_nonnil n) as Hn.
  pose proof (parseDigits_uint (N.to_uint n) Hn) as H.
  rewrite digitsValue_of_uint, DecimalN.Unsigned.of_to in H.
  destruct (N.to_uint n); [now elim Hn | exact H ..].
Qed.

(** The decimal digits start with a digit, so not with white space or a
    sign. *)
Lemma decimalDigits_head (n : N) :
  exists c rest, decimalDigits n = String c rest /\ isDigit c = true.
Proof.
  unfold decimalDigits, NilZero.string_of_uint.
  destruct (N.to_uint n); simpl; eexists; eexists; split; reflexivity.
Qed.

(** Below 10^21 a number prints as its digits, and [parseInt] reads them
    back. *)
Lemma parseInt_Number_toString (z : Z) :
  (Z.abs z < 10 ^ 21)%Z -> parseInt (Number_toString z) = Int z.
Proof.
  intros Hz. unfold Number_toString.
  assert (Hm : (Z.to_N (Z.abs z) <? 10 ^ 21)%N = true).
  { apply N.ltb_lt. change (10 ^ 21)%N with (Z.to_N (10 ^ 21)).
    apply Z2N.inj_lt; lia. }
  rewrite Hm.
  pose proof (parseDigits_decimalDigits (Z.to_N (Z.abs z))) as Hparse.
  destruct (decimalDigits_head (Z.to_N (Z.abs z))) as (c & rest & Hd & Hc).
  destruct (Z.ltb_spec z 0) as [Hneg|Hpos].
  - unfold parseInt. cbn [append trimStart].
    change (isWhiteSpace "-") with false. cbv iota.
    change (Ascii.eqb "-" "-") with true. cbv iota.
    rewrite Hparse. f_equal. rewrite Z2N.id; lia.
  - cbn [append]. unfold parseInt. rewrite Hd in *. cbn [trimStart].
    assert (Hws : isWhiteSpace c = false).
    { unfold isDigit, isWhiteSpace in *.
      apply andb_true_iff in Hc as [H1 H2].
      apply N.leb_le in H1, H2.
      repeat (apply orb_false_iff; split); try apply andb_false_iff;
        try (apply N.eqb_neq; lia). right. apply N.leb_gt; lia. }
    rewrite Hws.
    assert (Hminus : Ascii.eqb c "-" = false).
    { apply Ascii.eqb_neq. intros ->. discriminate Hc. }
    assert (Hplus : Ascii.eqb c "+" = false).
    { apply Ascii.eqb_neq. intros ->. discriminate Hc. }
    rewrite Hminus, Hplus, Hparse. f_equal. rewrite Z2N.id; lia.
Qed.

(** From 10^21 on the number prints in exponent notation and [parseInt]
    stops at the point or the [e]. *)
Example parseInt_exponent_notation :
  Number_toString (10 ^ 21) = "1e+21"
  /\ parseInt (Number_toString (10 ^ 21)) = Int 1.
Proof.
  split; reflexivity.
Qed.

End Numbers.

(** ** [transformPairsToTags] *)

Section Transform.

Lemma bind_Return {A B : Type} (m : M A) (k : A -> M B) (w w' : World) (a : A) :
  m w = (Return a, w') -> bind m k w = k a w'.
Proof.
  intros H; unfold bind; now rewrite H.
Qed.

Lemma bind_Throw {A B : Type} (m : M A) (k : A -> M B) (w w' : World) (t : Thrown) :
  m w = (Throw t, w') -> bind m k w = (Throw t, w').
Proof.
  intros H; unfold bind; now rewrite H.
Qed.

Lemma bind_Pending {A B : Type} (m : M A) (k : A -> M B) (w w' : World) :
  m w = (Pending, w') -> bind m k w = (Pending, w').
Proof.
  intros H; unfold bind; now rewrite H.
Qed.

Lemma after_nothing (w : World) : after w [] [] = w.
Proof.
  destruct w as [c r]; unfold after; simpl; now rewrite !app_nil_r.
Qed.

Lemma after_after (w : World) e1 s1 e2 s2 :
  after (after w e1 s1) e2 s2 = after w (e1 ++ e2) (s1 ++ s2).
Proof.
  unfold after; simpl; now rewrite !app_assoc.
Qed.

Lemma sortPair_step (valid : list Pair) (names : list string) (pair : Pair) :
  sortPair (valid, names) pair
  = ((valid ++ filter pairIsValid [pair])%list,
     (names ++ rejectedNamesOf [pair])%list).
Proof.
  unfold sortPair, rejectedNamesOf, pairIsValid; simpl.
  destruct (token0Invalid pair), (token1Invalid pair); simpl;
    rewrite <- ?app_assoc, ?app_nil_r; reflexivity.
Qed.

Lemma fold_sortPair (pairs : list Pair) (valid : list Pair) (names : list string) :
  fold_left sortPair pairs (valid, names)
  = ((valid ++ filter pairIsValid pairs)%list,
     (names ++ rejectedNamesOf pairs)%list).
Proof.
  revert valid names; induction pairs as [|pair pairs IH]; intros valid names.
  - simpl; now rewrite !app_nil_r.
  - change (fold_left sortPair (pair :: pairs) (valid, names))
      with (fold_left sortPair pairs (sortPair (valid, names) pair)).
    rewrite sortPair_step, IH, <- !app_assoc.
    change (pair :: pairs) with ([pair] ++ pairs)%list.
    unfold rejectedNamesOf.
    now rewrite filter_app, flat_map_app.
Qed.

(** [transformPairsToTags] always returns: the tags of the valid pairs, in
    order, after at most one line on the console. *)
Lemma transformPairsToTags_run (chainId : string) (pairs : list Pair) (w : World) :
  transformPairsToTags chainId pairs w
  = (Return (tagsOf chainId pairs), after w (rejectionLog pairs) []).
Proof.
  unfold transformPairsToTags, tagsOf, rejectionLog.
  rewrite fold_sortPair; simpl.
  destruct (rejectedNamesOf pairs) as [|n ns]; unfold bind, ret, log, after; simpl;
    now rewrite ?app_nil_r; destruct w.
Qed.

End Transform.

(** ** The record transformer *)

Section Transformer.

(** C4.  A symbols text longer than 45 characters is cut to exactly 45: its
    first 42 characters and then the three characters of the ellipsis; a
    symbols text of at most 45 characters is returned as it is.  This holds
    of every text, so of every [trim symbol0 ++ "/" ++ trim symbol1]. *)
Theorem truncateString_45 (text : string) :
  (45 < length text ->
   length (truncateString text 45) = 45
   /\ exists kept, truncateString text 45 = kept ++ "..."
                   /\ length kept = 42 /\ prefix kept text = true)
  /\ (length text <= 45 -> truncateString text 45 = text).
Proof.
  unfold truncateString, substring0; split; intros Hlen.
  - destruct (Z.gtb_spec (Z.of_nat (length text)) 45) as [_|Hle]; [|lia].
    change (Z.to_nat (45 - 3)) with 42.
    assert (Hkept : length (substring 0 42 text) = 42)
      by (apply length_substring0; lia).
    split.
    + now rewrite length_append, Hkept.
    + exists (substring 0 42 text); repeat split;
        [exact Hkept | apply prefix_substring0].
  - destruct (Z.gtb_spec (Z.of_nat (length text)) 45) as [Hgt|_];
      [lia | reflexivity].
Qed.

Lemma truncateString_45_witness :
  (length (truncateString "AAAAAAAAAAAAAAAAAAAAAAAAA/BBBBBBBBBBBBBBBBBBBBBBBB" 45) = 45
   /\ exists kept,
       truncateString "AAAAAAAAAAAAAAAAAAAAAAAAA/BBBBBBBBBBBBBBBBBBBBBBBB" 45
       = kept ++ "..."
       /\ length kept = 42
       /\ prefix kept "AAAAAAAAAAAAAAAAAAAAAAAAA/BBBBBBBBBBBBBBBBBBBBBBBB" = true)
  /\ truncateString "USDC/WETH" 45 = "USDC/WETH".
Proof.
  split.
  - apply (truncateString_45 "AAAAAAAAAAAAAAAAAAAAAAAAA/BBBBBBBBBBBBBBBBBBBBBBBB").
    simpl; lia.
  - apply (truncateString_45 "USDC/WETH"). simpl; lia.
Defined.

(** C7.  [transformPairsToTags] returns one tag for every valid pair, in
    order, and in each of them the contract address is
    ["eip155:" + chainId + ":" + pair.id], the name tag is the truncated
    symbols text followed by [" Pair"], the project name is ["Uniswap v2"]
    and the link is ["https://uniswap.org"]. *)
Theorem tag_fields (chainId : string) (pairs : list Pair) (w : World) :
  exists tags w',
    transformPairsToTags chainId pairs w = (Return tags, w')
    /\ Forall2
         (fun pair tag =>
            Contract_Address tag = "eip155:" ++ chainId ++ ":" ++ id pair
            /\ Public_Name_Tag tag
               = truncateString
                   (trim (symbol (token0 pair)) ++ "/"
                    ++ trim (symbol (token1 pair))) 45
                 ++ " Pair"
            /\ Project_Name tag = "Uniswap v2"
            /\ UI_Website_Link tag = "https://uniswap.org")
         (filter pairIsValid pairs) tags.
Proof.
  eexists; eexists; split; [apply transformPairsToTags_run|].
  unfold tagsOf.
  induction (filter pairIsValid pairs) as [|pair valid IH]; simpl;
    constructor; [repeat split | exact IH].
Qed.

(** C8.  In the tag of every valid pair the public note is the sentence that
    names token0 and token1, each by its trimmed name with the first
    ["USD//C"] rewritten to ["USDC"], followed by its trimmed symbol in
    brackets; a token named ["USD//C Coin"] is named ["USDC Coin"]. *)
Theorem public_note (chainId : string) (pairs : list Pair) (w : World) :
  exists tags w',
    transformPairsToTags chainId pairs w = (Return tags, w')
    /\ Forall2
         (fun pair tag =>
            exists name0 name1,
              Rewritten "USD//C" "USDC" (trim (name (token0 pair))) name0
              /\ Rewritten "USD//C" "USDC" (trim (name (token1 pair))) name1
              /\ Public_Note tag
                 = "The pair contract on Uniswap v2 for the "
                   ++ name0 ++ " (" ++ trim (symbol (token0 pair)) ++ ") / "
                   ++ name1 ++ " (" ++ trim (symbol (token1 pair)) ++ ") pair."
              /\ (name (token0 pair) = "USD//C Coin" -> name0 = "USDC Coin")
              /\ (name (token1 pair) = "USD//C Coin" -> name1 = "USDC Coin"))
         (filter pairIsValid pairs) tags.
Proof.
  eexists; eexists; split; [apply transformPairsToTags_run|].
  unfold tagsOf.
  induction (filter pairIsValid pairs) as [|pair valid IH]; simpl;
    constructor; [|exact IH].
  exists (trim (replace "USD//C" "USDC" (name (token0 pair)))),
         (trim (replace "USD//C" "USDC" (name (token1 pair)))).
  rewrite !trim_replace_USDC.
  repeat split; try apply replace_Rewritten; try (intros ->; reflexivity).
  simpl. now rewrite !trim_replace_USDC.
Qed.

Lemma public_note_witness :
  exists tags w',
    transformPairsToTags "1" [usdcWeth] emptyWorld = (Return tags, w')
    /\ Forall2
         (fun pair tag =>
            exists name0 name1,
              Rewritten "USD//C" "USDC" (trim (name (token0 pair))) name0
              /\ Rewritten "USD//C" "USDC" (trim (name (token1 pair))) name1
              /\ Public_Note tag
                 = "The pair contract on Uniswap v2 for the "
                   ++ name0 ++ " (" ++ trim (symbol (token0 pair)) ++ ") / "
                   ++ name1 ++ " (" ++ trim (symbol (token1 pair)) ++ ") pair."
              /\ (name (token0 pair) = "USD//C Coin" -> name0 = "USDC Coin")
              /\ (name (token1 pair) = "USD//C Coin" -> name1 = "USDC Coin"))
         (filter pairIsValid [usdcWeth]) tags.
Proof.
  exact (public_note "1" [usdcWeth] emptyWorld).
Defined.

End Transformer.

(** ** The record validator *)

Section Validator.

Lemma matchTagRest_iff (text : string) :
  matchTagRest text = true
  <-> exists inside rest, text = inside ++ ">" ++ rest /\ ~ Occurs ">" inside.
Proof.
  split.
  - induction text as [|c text IH]; [discriminate|]. cbn [matchTagRest].
    destruct (Ascii.eqb_spec c ">") as [->|Hc].
    + intros _. exists "", text. split; [reflexivity|].
      intros ([|d before] & rest & H); discriminate H.
    + intros H. destruct (IH H) as (inside & rest & -> & Hno).
      exists (String c inside), rest. split; [reflexivity|].
      intros ([|d before] & rest' & H'); simpl in H'.
      * injection H' as H' _. now elim Hc.
      * injection H' as _ H'. apply Hno. now exists before, rest'.
  - intros (inside & rest & -> & Hno).
    induction inside as [|c inside IH]; [reflexivity|].
    cbn [append matchTagRest]. destruct (Ascii.eqb c ">"); [reflexivity|].
    apply IH. intros (before & rest' & H). apply Hno.
    exists (String c before), rest'. simpl. now rewrite H.
Qed.

(** The matcher finds a match exactly when the text has a substring the
    pattern describes. *)
Lemma regexTagTest_iff (text : string) :
  regexTagTest text = true <-> ContainsTag text.
Proof.
  split.
  - induction text as [|c text IH]; [discriminate|]. cbn [regexTagTest].
    intros H. apply orb_true_iff in H as [H|H].
    + apply andb_true_iff in H as [Hc Hrest].
      apply Ascii.eqb_eq in Hc; subst c.
      apply matchTagRest_iff in Hrest as (inside & rest & -> & Hno).
      now exists "", inside, rest.
    + destruct (IH H) as (before & inside & rest & -> & Hno).
      now exists (String c before), inside, rest.
  - intros (before & inside & rest & -> & Hno).
    induction before as [|c before IH].
    + cbn [append regexTagTest]. apply orb_true_iff; left.
      apply andb_true_iff; split; [reflexivity|].
      apply matchTagRest_iff. now exists inside, rest.
    + cbn [append regexTagTest] in *. rewrite IH. apply orb_true_r.
Qed.

Lemma containsHtmlOrMarkdown_iff (text : string) :
  containsHtmlOrMarkdown text = false <-> ~ ContainsTag text.
Proof.
  unfold containsHtmlOrMarkdown. rewrite <- regexTagTest_iff.
  destruct (regexTagTest text); split; intros H; congruence.
Qed.

Lemma pairIsValid_iff (pair : Pair) :
  pairIsValid pair = true
  <-> ~ ContainsTag (name (token0 pair))
      /\ ~ ContainsTag (symbol (token0 pair))
      /\ ~ ContainsTag (name (token1 pair))
      /\ ~ ContainsTag (symbol (token1 pair)).
Proof.
  unfold pairIsValid, token0Invalid, token1Invalid.
  rewrite negb_true_iff, !orb_false_iff, !containsHtmlOrMarkdown_iff.
  tauto.
Qed.

End Validator.

(** ** The paginated fetcher: one page *)

Section FetchData.

Variables (url : string) (cursor : number).

Lemma forEach_log (errs : list GraphQLError) (w : World) :
  forEach (fun error => log (console_error ("GraphQL error: " ++ message error)))
    errs w
  = (Return tt, after w (graphQLErrorLog errs) []).
Proof.
  revert w; induction errs as [|e errs IH]; intros w.
  - simpl. unfold ret. now rewrite after_nothing.
  - simpl. unfold bind at 1. unfold log at 1. rewrite IH.
    unfold after; simpl. now rewrite <- !app_assoc, !app_nil_r.
Qed.

(** What [fetchData] does with a response whose body parsed. *)
Lemma fetchData_parsed (response : Response) (body : GraphQLResponse) (w : World) :
  ok response = true -> json response = Return body ->
  fetchData url cursor (Return response) w
  = match errors body with
    | Some errs =>
        (Throw graphQLErrorsOccurred,
         after w (graphQLErrorLog errs) [requestFor url cursor])
    | None =>
        (match data body with
         | Some {| pairs := Some ps |} => Return ps
         | _ => Throw noPairsDataFound
         end,
         after w [] [requestFor url cursor])
    end.
Proof.
  intros Hok Hjson. unfold fetchData.
  rewrite (bind_Return _ _ w (after w [] [requestFor url cursor]) response)
    by (unfold fetch, after; simpl; now rewrite app_nil_r).
  rewrite Hok. cbn [negb].
  rewrite (bind_Return _ _ _ (after w [] [requestFor url cursor]) body)
    by (unfold await; now rewrite Hjson).
  destruct (errors body) as [errs|].
  - rewrite (bind_Return _ _ _ _ tt (forEach_log errs _)).
    unfold throw. now rewrite after_after.
  - destruct (data body) as [[[ps|]]|]; reflexivity.
Qed.

(** C6.  One page fetch, in this order: an unsuccessful status fails with
    the HTTP error; otherwise an errors list in the parsed body has each of
    its messages logged and fails; otherwise a body without [data.pairs]
    fails; otherwise the pairs of the page are returned. *)
Theorem fetchData_outcomes (response : Response) (body : GraphQLResponse)
    (w : World) :
  (ok response = false ->
   fetchData url cursor (Return response) w
   = (Throw (new_Error ("HTTP error: " ++ Number_toString (status response))),
      after w [] [requestFor url cursor]))
  /\ (forall errs,
        ok response = true -> json response = Return body ->
        errors body = Some errs ->
        fetchData url cursor (Return response) w
        = (Throw graphQLErrorsOccurred,
           after w (graphQLErrorLog errs) [requestFor url cursor]))
  /\ (ok response = true -> json response = Return body ->
      errors body = None ->
      data body = None \/ data body = Some {| pairs := None |} ->
      fetchData url cursor (Return response) w
      = (Throw noPairsDataFound, after w [] [requestFor url cursor]))
  /\ (forall ps,
        ok response = true -> json response = Return body ->
        errors body = None -> data body = Some {| pairs := Some ps |} ->
        fetchData url cursor (Return response) w
        = (Return ps, after w [] [requestFor url cursor])).
Proof.
  split; [|split; [|split]].
  - intros Hok. unfold fetchData.
    rewrite (bind_Return _ _ w (after w [] [requestFor url cursor]) response)
      by (unfold fetch, after; simpl; now rewrite app_nil_r).
    now rewrite Hok.
  - intros errs Hok Hjson Herrors.
    now rewrite (fetchData_parsed response body w Hok Hjson), Herrors.
  - intros Hok Hjson Herrors Hdata.
    rewrite (fetchData_parsed response body w Hok Hjson), Herrors.
    now destruct Hdata as [-> | ->].
  - intros ps Hok Hjson Herrors Hdata.
    now rewrite (fetchData_parsed response body w Hok Hjson), Herrors, Hdata.
Qed.


End FetchData.

Lemma fetchData_outcomes_witness :
  fetchData "https://example.org" (Int 0)
    (Return {| ok := false; status := 500; json := Pending |}) emptyWorld
  = (Throw (new_Error "HTTP error: 500"),
     after emptyWorld [] [requestFor "https://example.org" (Int 0)])
  /\ fetchData "https://example.org" (Int 0)
       (Return (okResponse {| data := None;
                              errors := Some [ {| message := "bad query" |} ] |}))
       emptyWorld
     = (Throw graphQLErrorsOccurred,
        after emptyWorld [console_error "GraphQL error: bad query"]
          [requestFor "https://example.org" (Int 0)])
  /\ fetchData "https://example.org" (Int 0)
       (Return (okResponse {| data := None; errors := None |})) emptyWorld
     = (Throw noPairsDataFound,
        after emptyWorld [] [requestFor "https://example.org" (Int 0)])
  /\ fetchData "https://example.org" (Int 0) (page [usdcWeth]) emptyWorld
     = (Return [usdcWeth],
        after emptyWorld [] [requestFor "https://example.org" (Int 0)]).
Proof.
  split; [|split; [|split]].
  - apply (proj1 (fetchData_outcomes "https://example.org" (Int 0)
                    {| ok := false; status := 500; json := Pending |}
                    {| data := None; errors := None |} emptyWorld)).
    reflexivity.
  - apply (proj1 (proj2 (fetchData_outcomes "https://example.org" (Int 0)
                    (okResponse {| data := None;
                                   errors := Some [ {| message := "bad query" |} ] |})
                    {| data := None;
                       errors := Some [ {| message := "bad query" |} ] |}
                    emptyWorld))
             [ {| message := "bad query" |} ]); reflexivity.
  - apply (proj1 (proj2 (proj2 (fetchData_outcomes "https://example.org" (Int 0)
                    (okResponse {| data := None; errors := None |})
                    {| data := None; errors := None |} emptyWorld))));
      try reflexivity. now left.
  - apply (proj2 (proj2 (proj2 (fetchData_outcomes "https://example.org" (Int 0)
                    (okResponse {| data := Some {| pairs := Some [usdcWeth] |};
                                   errors := None |})
                    {| data := Some {| pairs := Some [usdcWeth] |};
                       errors := None |}
                    emptyWorld)))); reflexivity.
Defined.


(** ** The URL resolver *)

Section PrepareUrl.

(** The encoded API key has no [$], so [replace] inserts it as it is. *)
Lemma encodeUnit_no_dollar (c : ascii) :
  allOf (fun x => negb (Ascii.eqb x "$")) (encodeUnit c) = true.
Proof.
  destruct c as [[] [] [] [] [] [] [] []]; reflexivity.
Qed.

Lemma allOf_append (p : ascii -> bool) (s t : string) :
  allOf p s = true -> allOf p t = true -> allOf p (s ++ t) = true.
Proof.
  intros Hs Ht; induction s as [|c s IH]; [exact Ht|].
  cbn [append allOf] in *. apply andb_true_iff in Hs as [Hc Hs].
  now rewrite Hc, IH.
Qed.

Lemma encodeURIComponent_no_dollar (s : string) :
  allOf (fun x => negb (Ascii.eqb x "$")) (encodeURIComponent s) = true.
Proof.
  induction s as [|c s IH]; [reflexivity|].
  cbn [encodeURIComponent]. apply allOf_append; [apply encodeUnit_no_dollar | exact IH].
Qed.

Lemma inherited_names_not_numeric (key : string) :
  existsb (String.eqb key) Object_prototype_names = true ->
  isNaN_Number key = true.
Proof.
  intros H. apply existsb_exists in H as (n & Hin & Heq).
  apply String.eqb_eq in Heq; subst n.
  repeat (destruct Hin as [<-|Hin]; [reflexivity|]). destruct Hin.
Qed.

Lemma ownProperty_SUBGRAPH_URLS (chainId : string) (urls : SubgraphUrls) :
  ownProperty SUBGRAPH_URLS chainId = Some urls ->
  chainId = "1" /\ SUBGRAPH_URLS = [("1", urls)].
Proof.
  unfold SUBGRAPH_URLS; cbn [ownProperty].
  destruct (String.eqb_spec "1" chainId) as [<-|_]; [|discriminate].
  now intros [= <-].
Qed.

Lemma prepareUrl_unsupported (chainId apiKey : string) :
  ownProperty SUBGRAPH_URLS chainId = None \/ isNaN_Number chainId = true ->
  prepareUrl chainId apiKey = Throw (unsupportedChainId chainId).
Proof.
  intros [Habsent | Hnan]; unfold prepareUrl, unsupportedChainId.
  - unfold get. rewrite Habsent.
    destruct (existsb (String.eqb chainId) Object_prototype_names) eqn:Hin.
    + now rewrite (inherited_names_not_numeric _ Hin).
    + reflexivity.
  - now rewrite Hnan, orb_true_r.
Qed.

(** The only error [prepareUrl] throws is the unsupported-chain error. *)
Lemma prepareUrl_throws (chainId apiKey : string) (t : Thrown) :
  prepareUrl chainId apiKey = Throw t -> t = unsupportedChainId chainId.
Proof.
  destruct (ownProperty SUBGRAPH_URLS chainId) as [urls|] eqn:Hown.
  - unfold prepareUrl, get. rewrite Hown. cbn [truthy negb orb].
    destruct (isNaN_Number chainId); [|discriminate].
    now intros [= <-].
  - rewrite (prepareUrl_unsupported chainId apiKey (or_introl Hown)).
    now intros [= <-].
Qed.



End PrepareUrl.

(** ** The pagination loop *)

Section Loop.

Variables chainId url : string.

Lemma try_catch_Return {A : Type} (m : M A) (h : Thrown -> M A) (w w' : World)
    (a : A) :
  m w = (Return a, w') -> try_catch m h w = (Return a, w').
Proof.
  intros H; unfold try_catch; now rewrite H.
Qed.

Lemma try_catch_Throw {A : Type} (m : M A) (h : Thrown -> M A) (w w' : World)
    (t : Thrown) :
  m w = (Throw t, w') -> try_catch m h w = h t w'.
Proof.
  intros H; unfold try_catch; now rewrite H.
Qed.

Lemma try_catch_Pending {A : Type} (m : M A) (h : Thrown -> M A) (w w' : World) :
  m w = (Pending, w') -> try_catch m h w = (Pending, w').
Proof.
  intros H; unfold try_catch; now rewrite H.
Qed.

Lemma catchBlock_run (cause : Thrown) (w : World) :
  catchBlock cause w = (Throw (wrapped cause), after w [catchLine cause] []).
Proof.
  destruct cause; unfold catchBlock, bind, log, throw, after; simpl;
    now rewrite app_nil_r.
Qed.

Lemma nth_error_last (ps : list Pair) (other : Pair) :
  ps <> [] -> nth_error ps (List.length ps - 1) = Some (last ps other).
Proof.
  induction ps as [|a ps IH]; intros Hne; [now elim Hne|].
  destruct ps as [|b ps]; [reflexivity|].
  replace (List.length (a :: b :: ps) - 1) with (S (List.length (b :: ps) - 1))
    by (simpl; lia).
  change (last (a :: b :: ps) other) with (last (b :: ps) other).
  cbn [nth_error]. apply IH. discriminate.
Qed.

(** The [try] block once [fetchData] has returned the page [ps]. *)
Lemma tryBlock_fetched (answer : Completion Response) (v : Locals)
    (ps : list Pair) (w w1 : World) :
  fetchData url (lastTimestamp v) answer w = (Return ps, w1) ->
  tryBlock chainId url answer v w
  = (Return (if (List.length ps =? 1000)%nat
             then afterFullPage chainId ps (last ps usdcWeth) v
             else afterShortPage chainId ps v),
     after w1 (rejectionLog ps ++ [retrievedLine (counter v + 1)]) []).
Proof.
  intros Hfetch. unfold tryBlock.
  rewrite (bind_Return _ _ _ _ _ Hfetch).
  rewrite (bind_Return _ _ _ _ _ (transformPairsToTags_run chainId ps w1)).
  rewrite (bind_Return _ _ _
             (after w1 (rejectionLog ps ++ [retrievedLine (counter v + 1)]) [])
             tt)
    by (unfold log, after, retrievedLine; simpl;
        now rewrite !app_nil_r, <- app_assoc).
  destruct (Nat.eqb_spec (List.length ps) 1000) as [Hlen|Hlen]; [|reflexivity].
  rewrite (nth_error_last ps usdcWeth) by (intros ->; discriminate Hlen).
  reflexivity.
Qed.

Lemma tryBlock_failed (answer : Completion Response) (v : Locals)
    (cause : Thrown) (w w1 : World) :
  fetchData url (lastTimestamp v) answer w = (Throw cause, w1) ->
  tryBlock chainId url answer v w = (Throw cause, w1).
Proof.
  intros Hfetch. unfold tryBlock. now rewrite (bind_Throw _ _ _ _ _ Hfetch).
Qed.


Lemma fetchData_page (cursor : number) (ps : list Pair) (w : World) :
  fetchData url cursor (page ps) w
  = (Return ps, after w [] [requestFor url cursor]).
Proof.
  exact (fetchData_parsed url cursor
           (okResponse {| data := Some {| pairs := Some ps |}; errors := None |})
           {| data := Some {| pairs := Some ps |}; errors := None |}
           w eq_refl eq_refl).
Qed.

(** One turn of the loop on a page of exactly 1000 records: the loop goes
    on, with the cursor read from the last record. *)
Lemma whileIsMore_full_page (ps : list Pair) (answers : list (Completion Response))
    (v : Locals) (w : World) :
  isMore v = true -> List.length ps = 1000 ->
  whileIsMore chainId url (page ps :: answers) v w
  = whileIsMore chainId url answers
      (afterFullPage chainId ps (last ps usdcWeth) v)
      (after w (rejectionLog ps ++ [retrievedLine (counter v + 1)])
         [requestFor url (lastTimestamp v)]).
Proof.
  intros Hmore Hlen. cbn [whileIsMore]. rewrite Hmore.
  erewrite bind_Return;
    [|apply try_catch_Return; apply tryBlock_fetched; apply fetchData_page].
  rewrite Hlen, after_after. reflexivity.
Qed.

(** One turn of the loop on a shorter (or longer) page: the loop ends and
    the tags are returned. *)
Lemma whileIsMore_short_page (ps : list Pair) (answers : list (Completion Response))
    (v : Locals) (w : World) :
  isMore v = true -> List.length ps <> 1000 ->
  whileIsMore chainId url (page ps :: answers) v w
  = (Return (allTags v ++ tagsOf chainId ps)%list,
     after w (rejectionLog ps ++ [retrievedLine (counter v + 1)])
       [requestFor url (lastTimestamp v)]).
Proof.
  intros Hmore Hlen. cbn [whileIsMore]. rewrite Hmore.
  erewrite bind_Return;
    [|apply try_catch_Return; apply tryBlock_fetched; apply fetchData_page].
  apply Nat.eqb_neq in Hlen. rewrite Hlen, after_after.
  destruct answers; reflexivity.
Qed.

End Loop.

(** ** [returnTags] *)

Section ReturnTags.

Lemma returnTags_resolved (answers : list (Completion Response))
    (chainId apiKey url : string) (w : World) :
  prepareUrl chainId apiKey = Return url ->
  returnTags answers chainId apiKey w
  = whileIsMore chainId url answers
      {| lastTimestamp := Int 0; allTags := []; isMore := true; counter := 0 |}
      w.
Proof.
  intros Hurl. unfold returnTags.
  now rewrite (bind_Return _ _ w w url) by (unfold call; now rewrite Hurl).
Qed.

(** C9.  When the first fetch returns an empty list of pairs, [returnTags]
    resolves with the empty list after that one fetch: one request, one
    progress line, no error. *)
Theorem empty_first_page (answers : list (Completion Response))
    (chainId apiKey url : string) (response : Response)
    (body : GraphQLResponse) (w : World) :
  prepareUrl chainId apiKey = Return url ->
  ok response = true -> json response = Return body ->
  errors body = None -> data body = Some {| pairs := Some [] |} ->
  returnTags (Return response :: answers) chainId apiKey w
  = (Return [],
     after w [console_log "Retrieved first 1000 entries..." None]
       [requestFor url (Int 0)]).
Proof.
  intros Hurl Hok Hjson Herrors Hdata.
  rewrite (returnTags_resolved _ _ _ _ _ Hurl). cbn [whileIsMore isMore].
  assert (Hfetch : fetchData url (Int 0) (Return response) w
                   = (Return [], after w [] [requestFor url (Int 0)])).
  { now rewrite (fetchData_parsed url (Int 0) response body w Hok Hjson),
      Herrors, Hdata. }
  erewrite bind_Return;
    [|apply try_catch_Return; apply tryBlock_fetched; exact Hfetch].
  cbn [List.length Nat.eqb afterShortPage]. rewrite after_after.
  destruct answers; reflexivity.
Qed.

Lemma empty_first_page_witness :
  returnTags [page []; page [usdcWeth]] "1" "key" emptyWorld
  = (Return [],
     after emptyWorld [console_log "Retrieved first 1000 entries..." None]
       [requestFor
          "https://gateway-arbitrum.network.thegraph.com/api/key/deployments/id/QmZzsQGDmQFbzYkv2qx4pVnD6aVnuhKbD3t1ea7SAvV7zE"
          (Int 0)]).
Proof.
  apply (empty_first_page [page [usdcWeth]] "1" "key" _
           (okResponse {| data := Some {| pairs := Some [] |}; errors := None |})
           {| data := Some {| pairs := Some [] |}; errors := None |}
           emptyWorld); reflexivity.
Defined.

Lemma last_cons {A : Type} (a : A) (l : list A) (d : A) :
  last (a :: l) d = last l a.
Proof.
  revert a d; induction l as [|b l IH]; intros a d; [reflexivity|].
  change (last (a :: b :: l) d) with (last (b :: l) d).
  now rewrite (IH b d), (IH b a).
Qed.

(** In a sorted list the last element is the largest. *)
Lemma sorted_last_max (t : Z) (ts : list Z) :
  Sorted Z.le (t :: ts) -> fold_left Z.max ts t = last ts t.
Proof.
  revert t; induction ts as [|u ts IH]; intros t Hsorted; [reflexivity|].
  apply Sorted_inv in Hsorted as [Hrest Hhead].
  apply HdRel_inv in Hhead.
  cbn [fold_left]. rewrite Z.max_r by exact Hhead. rewrite (IH u Hrest).
  symmetry. apply last_cons.
Qed.

Lemma last_map (ps : list Pair) (p other : Pair) :
  createdAtTimestamp (last (p :: ps) other)
  = last (map createdAtTimestamp ps) (createdAtTimestamp p).
Proof.
  revert p; induction ps as [|q ps IH]; intros p; [reflexivity|].
  change (last (p :: q :: ps) other) with (last (q :: ps) other).
  rewrite IH. cbn [map]. symmetry. apply last_cons.
Qed.

Lemma last_is_maxTimestamp (ps : list Pair) (other : Pair) :
  ps <> [] -> Sorted Z.le (map createdAtTimestamp ps) ->
  createdAtTimestamp (last ps other) = maxTimestamp ps.
Proof.
  destruct ps as [|p ps]; intros Hne Hsorted; [now elim Hne|].
  unfold maxTimestamp. cbn [map] in *.
  now rewrite sorted_last_max, last_map.
Qed.

Lemma ascending_Sorted (l : list Z) : ascending l = true -> Sorted Z.le l.
Proof.
  induction l as [|a l IH]; intros H; [constructor|].
  destruct l as [|b l]; [repeat constructor|].
  cbn [ascending] in H. apply andb_true_iff in H as [Hab Hrest].
  constructor; [now apply IH | constructor; now apply Z.leb_le].
Qed.

(** C1, as amended.  Three pages of 1000, 1000 and 400 records, the first
    two sorted by [createdAtTimestamp] with a largest timestamp below 10^21
    in absolute value: [returnTags] sends exactly three requests, the second
    and third with the largest timestamp of the page before as cursor, and
    returns the tags of the three pages in page order. *)
Theorem three_pages (chainId apiKey url : string) (p1 p2 p3 : list Pair)
    (answers : list (Completion Response)) (w : World) :
  prepareUrl chainId apiKey = Return url ->
  List.length p1 = 1000 -> List.length p2 = 1000 -> List.length p3 = 400 ->
  Sorted Z.le (map createdAtTimestamp p1) ->
  Sorted Z.le (map createdAtTimestamp p2) ->
  (Z.abs (maxTimestamp p1) < 10 ^ 21)%Z ->
  (Z.abs (maxTimestamp p2) < 10 ^ 21)%Z ->
  exists w',
    returnTags (page p1 :: page p2 :: page p3 :: answers) chainId apiKey w
    = (Return (tagsOf chainId p1 ++ tagsOf chainId p2 ++ tagsOf chainId p3)%list,
       w')
    /\ requests w'
       = (requests w
          ++ [requestFor url (Int 0);
              requestFor url (Int (maxTimestamp p1));
              requestFor url (Int (maxTimestamp p2))])%list.
Proof.
  intros Hurl H1 H2 H3 S1 S2 B1 B2.
  rewrite (returnTags_resolved _ _ _ _ _ Hurl).
  rewrite whileIsMore_full_page by (reflexivity || exact H1).
  rewrite whileIsMore_full_page by (reflexivity || exact H2).
  rewrite whileIsMore_short_page by (reflexivity || (rewrite H3; discriminate)).
  eexists; split; [cbn [afterFullPage allTags]; now rewrite <- app_assoc|].
  cbn [afterFullPage lastTimestamp after requests].
  rewrite !last_is_maxTimestamp
    by (assumption || (intros ->; discriminate)).
  rewrite !parseInt_Number_toString by assumption.
  now rewrite <- !app_assoc.
Qed.

Lemma three_pages_witness :
  exists w',
    returnTags
      [page (pairsFrom 1588610340 1000); page (pairsFrom 1588611340 1000);
       page (pairsFrom 1588612340 400)]
      "1" "key" emptyWorld
    = (Return (tagsOf "1" (pairsFrom 1588610340 1000)
               ++ tagsOf "1" (pairsFrom 1588611340 1000)
               ++ tagsOf "1" (pairsFrom 1588612340 400))%list,
       w')
    /\ requests w'
       = (requests emptyWorld
          ++ [requestFor keyUrl (Int 0);
              requestFor keyUrl (Int (maxTimestamp (pairsFrom 1588610340 1000)));
              requestFor keyUrl (Int (maxTimestamp (pairsFrom 1588611340 1000)))])%list.
Proof.
  apply (three_pages "1" "key" keyUrl
           (pairsFrom 1588610340 1000) (pairsFrom 1588611340 1000)
           (pairsFrom 1588612340 400) [] emptyWorld);
    try (apply ascending_Sorted); vm_compute; reflexivity.
Defined.

(** C1, as it is stated, fails when the last record of a full page carries
    the timestamp 10^21: the number prints as [1e+21], [parseInt] reads 1,
    and the next request has the cursor 1. *)
Lemma pagination_counterexample :
  map variables_lastTimestamp
    (requests
       (snd (returnTags
               [page farFuturePage; page (pairsFrom 2000 1000);
                page (pairsFrom 3000 400)] "1" "key" emptyWorld)))
  = [Int 0; Int 1; Int 2999]
  /\ maxTimestamp farFuturePage = (10 ^ 21)%Z
  /\ ~ pagination_as_stated "1" "key"
        farFuturePage (pairsFrom 2000 1000) (pairsFrom 3000 400).
Proof.
  split; [vm_compute; reflexivity|]. split; [vm_compute; reflexivity|].
  intros Hclaim.
  destruct (Hclaim keyUrl [] emptyWorld) as (w' & Hrun & Hrequests);
    try (apply ascending_Sorted); try (vm_compute; reflexivity).
  assert (Hsent :
            requests
              (snd (returnTags
                      [page farFuturePage; page (pairsFrom 2000 1000);
                       page (pairsFrom 3000 400)] "1" "key" emptyWorld))
            = [requestFor keyUrl (Int 0);
               requestFor keyUrl (Int (maxTimestamp farFuturePage));
               requestFor keyUrl (Int (maxTimestamp (pairsFrom 2000 1000)))])
    by (rewrite Hrun; exact Hrequests).
  vm_compute in Hsent. discriminate Hsent.
Qed.

(** Whatever the loop throws went through its [catch] block. *)
Lemma whileIsMore_throws (chainId url : string)
    (answers : list (Completion Response)) (v : Locals) (w w' : World)
    (t : Thrown) :
  whileIsMore chainId url answers v w = (Throw t, w') ->
  exists cause before,
    console w' = (before ++ [catchLine cause])%list /\ t = wrapped cause.
Proof.
  revert v w; induction answers as [|answer answers IH]; intros v w;
    cbn [whileIsMore]; destruct (isMore v); try discriminate.
  destruct (tryBlock chainId url answer v w) as [[v'|cause|] w1] eqn:Htry.
  - rewrite (bind_Return _ _ _ _ _ (try_catch_Return _ catchBlock _ _ _ Htry)).
    apply IH.
  - rewrite (bind_Throw _ _ w (after w1 [catchLine cause] []) (wrapped cause))
      by (rewrite (try_catch_Throw _ catchBlock _ _ _ Htry);
          apply catchBlock_run).
    intros [= <- <-]. exists cause, (console w1). split; reflexivity.
  - rewrite (bind_Pending _ _ _ _ (try_catch_Pending _ catchBlock _ _ Htry)).
    discriminate.
Qed.

(** C2, as amended.  Every error [returnTags] raises is of one of two kinds.
    It is the error of [prepareUrl] for a bad chain id, raised as it is, with
    nothing logged and nothing fetched.  Or it comes out of the [catch] block
    of the loop: the last console line is the line logged for the cause, and
    the error is the new one that wraps the cause.  A bad chain id does give
    the first kind, and a failing fetch ends the loop with the second kind
    whatever tags were collected before, so no partial list is returned. *)
Theorem returnTags_errors (answers : list (Completion Response))
    (chainId apiKey : string) (w : World) :
  (forall t w',
      returnTags answers chainId apiKey w = (Throw t, w') ->
      (prepareUrl chainId apiKey = Throw t
       /\ t = unsupportedChainId chainId /\ w' = w)
      \/ (exists url cause before,
             prepareUrl chainId apiKey = Return url
             /\ console w' = (before ++ [catchLine cause])%list
             /\ t = wrapped cause))
  /\ (ownProperty SUBGRAPH_URLS chainId = None \/ isNaN_Number chainId = true ->
      returnTags answers chainId apiKey w
      = (Throw (unsupportedChainId chainId), w))
  /\ (forall url v answer cause w1,
        isMore v = true ->
        fetchData url (lastTimestamp v) answer w = (Throw cause, w1) ->
        whileIsMore chainId url (answer :: answers) v w
        = (Throw (wrapped cause), after w1 [catchLine cause] [])).
Proof.
  split; [|split].
  - intros t w'.
    destruct (prepareUrl chainId apiKey) as [url|cause|] eqn:Hurl.
    + rewrite (returnTags_resolved _ _ _ _ _ Hurl). intros Hrun.
      destruct (whileIsMore_throws _ _ _ _ _ _ _ Hrun) as (cause & before & H).
      right. now exists url, cause, before.
    + unfold returnTags.
      rewrite (bind_Throw _ _ w w cause) by (unfold call; now rewrite Hurl).
      intros [= <- <-]. left. repeat split.
      now apply (prepareUrl_throws chainId apiKey).
    + unfold returnTags.
      rewrite (bind_Pending _ _ w w) by (unfold call; now rewrite Hurl).
      discriminate.
  - intros Hbad. unfold returnTags.
    now rewrite (bind_Throw _ _ w w (unsupportedChainId chainId))
      by (unfold call; now rewrite (prepareUrl_unsupported _ apiKey Hbad)).
  - intros url v answer cause w1 Hmore Hfetch. cbn [whileIsMore]. rewrite Hmore.
    apply bind_Throw.
    rewrite (try_catch_Throw _ catchBlock _ _ _
               (tryBlock_failed chainId url answer v cause w w1 Hfetch)).
    apply catchBlock_run.
Qed.

Lemma returnTags_errors_witness :
  returnTags [] "137" "key" emptyWorld
  = (Throw (unsupportedChainId "137"), emptyWorld)
  /\ ((prepareUrl "1" "key"
       = Throw (new_Error "Failed fetching data: Error: HTTP error: 500")
       /\ new_Error "Failed fetching data: Error: HTTP error: 500"
          = unsupportedChainId "1"
       /\ after emptyWorld [console_error "An error occurred: HTTP error: 500"]
            [requestFor keyUrl (Int 0)]
          = emptyWorld)
      \/ (exists url cause before,
             prepareUrl "1" "key" = Return url
             /\ console
                  (after emptyWorld
                     [console_error "An error occurred: HTTP error: 500"]
                     [requestFor keyUrl (Int 0)])
                = (before ++ [catchLine cause])%list
             /\ new_Error "Failed fetching data: Error: HTTP error: 500"
                = wrapped cause))
  /\ whileIsMore "1" keyUrl
       [Return {| ok := false; status := 500; json := Pending |}; page [usdcWeth]]
       {| lastTimestamp := Int 1588610339; allTags := tagsOf "1" [usdcWeth];
          isMore := true; counter := 1 |}
       emptyWorld
     = (Throw (new_Error "Failed fetching data: Error: HTTP error: 500"),
        after emptyWorld [console_error "An error occurred: HTTP error: 500"]
          [requestFor keyUrl (Int 1588610339)]).
Proof.
  split; [|split].
  - apply (proj1 (proj2 (returnTags_errors [] "137" "key" emptyWorld))).
    left; reflexivity.
  - apply (proj1 (returnTags_errors
                    [Return {| ok := false; status := 500; json := Pending |}]
                    "1" "key" emptyWorld)
             (new_Error "Failed fetching data: Error: HTTP error: 500")
             (after emptyWorld [console_error "An error occurred: HTTP error: 500"]
                [requestFor keyUrl (Int 0)])).
    reflexivity.
  - apply (proj2 (proj2 (returnTags_errors [page [usdcWeth]] "1" "key" emptyWorld))
             keyUrl
             {| lastTimestamp := Int 1588610339; allTags := tagsOf "1" [usdcWeth];
                isMore := true; counter := 1 |}
             (Return {| ok := false; status := 500; json := Pending |})
             (new_Error "HTTP error: 500")
             (after emptyWorld [] [requestFor keyUrl (Int 1588610339)]));
      reflexivity.
Defined.

(** C2, as it is stated, fails for a bad chain id: the error is raised
    without a line on the console and without the wrapping. *)
Lemma error_policy_counterexample :
  returnTags [] "137" "key" emptyWorld
  = (Throw
       (new_Error
          "Unsupported or invalid Chain ID provided: 137. Only the following values are accepted: 1"),
     {| console := []; requests := [] |})
  /\ ~ error_policy_as_stated [] "137" "key" emptyWorld.
Proof.
  split; [reflexivity|].
  intros Hclaim.
  destruct (Hclaim (unsupportedChainId "137") emptyWorld eq_refl)
    as (cause & before & Hconsole & _).
  destruct before; discriminate Hconsole.
Qed.

End ReturnTags.

(** ** Validation inside the pipeline *)

Section Validation.

(** C5.  [transformPairsToTags] returns exactly one tag for every pair none
    of whose two names and two symbols contains a substring of the form
    [<...>], in order, and none for the other pairs; what it does about
    those is at most one console line.  It always returns, and the turn of
    the loop that handles the page returns as well. *)
Theorem transformPairsToTags_validation (chainId url : string) (pairs : list Pair) (v : Locals)
    (w : World) :
  transformPairsToTags chainId pairs w
  = (Return (map (toTag chainId) (filter pairIsValid pairs)),
     after w (rejectionLog pairs) [])
  /\ (forall pair,
        pairIsValid pair = true
        <-> ~ ContainsTag (name (token0 pair))
            /\ ~ ContainsTag (symbol (token0 pair))
            /\ ~ ContainsTag (name (token1 pair))
            /\ ~ ContainsTag (symbol (token1 pair)))
  /\ (rejectionLog pairs = []
      \/ exists names,
          rejectionLog pairs
          = [console_log "Rejected token names due to HTML/Markdown content:"
               (Some names)])
  /\ (exists v' w',
        try_catch (tryBlock chainId url (page pairs) v) catchBlock w
        = (Return v', w')
        /\ allTags v'
           = (allTags v ++ map (toTag chainId) (filter pairIsValid pairs))%list).
Proof.
  split; [apply transformPairsToTags_run|].
  split; [apply pairIsValid_iff|].
  split.
  - unfold rejectionLog. destruct (rejectedNamesOf pairs); eauto.
  - eexists; eexists; split.
    + apply try_catch_Return, tryBlock_fetched, fetchData_page.
    + destruct (List.length pairs =? 1000)%nat; reflexivity.
Qed.

End Validation.

(** ** More on [truncateString] *)

Section TruncateString.

Lemma substring0_nothing (text : string) : substring 0 0 text = "".
Proof.
  destruct text; reflexivity.
Qed.

(** X7.  For a limit of at least 3 the result has the length of the text or the
    limit, whichever is smaller. *)
Theorem truncateString_length (text : string) (maxLength : Z) :
  (3 <= maxLength)%Z ->
  Z.of_nat (length (truncateString text maxLength))
  = Z.min (Z.of_nat (length text)) maxLength.
Proof.
  intros Hmax. unfold truncateString, substring0.
  destruct (Z.gtb_spec (Z.of_nat (length text)) maxLength) as [Hlong|Hshort].
  - rewrite length_append, length_substring0 by lia. simpl length. lia.
  - lia.
Qed.

Lemma truncateString_length_witness :
  Z.of_nat (length (truncateString "Wrapped Ether" 10))
  = Z.min (Z.of_nat (length "Wrapped Ether")) 10.
Proof.
  apply (truncateString_length "Wrapped Ether" 10). lia.
Defined.

(** X8.  Below 3 there is no room for the ellipsis: a text longer than the limit
    becomes the ellipsis alone, three characters whatever the limit. *)
Theorem truncateString_small_limit (text : string) (maxLength : Z) :
  (maxLength < 3)%Z -> (maxLength < Z.of_nat (length text))%Z ->
  truncateString text maxLength = "...".
Proof.
  intros Hmax Hlong. unfold truncateString, substring0.
  destruct (Z.gtb_spec (Z.of_nat (length text)) maxLength) as [_|Hshort]; [|lia].
  replace (Z.to_nat (maxLength - 3)) with 0 by lia.
  now rewrite substring0_nothing.
Qed.

Lemma truncateString_small_limit_witness : truncateString "WETH" 2 = "...".
Proof.
  apply (truncateString_small_limit "WETH" 2); simpl; lia.
Defined.

Lemma truncateString_cases (text : string) (maxLength : Z) :
  ((Z.of_nat (length text) <= maxLength)%Z
   /\ truncateString text maxLength = text)
  \/ ((maxLength < Z.of_nat (length text))%Z
      /\ truncateString text maxLength
         = substring 0 (Z.to_nat (maxLength - 3)) text ++ "...").
Proof.
  unfold truncateString, substring0.
  destruct (Z.gtb_spec (Z.of_nat (length text)) maxLength); [right | left];
    split; (lia || reflexivity).
Qed.

(** X9.  Truncating twice is truncating once, for every limit. *)
Theorem truncateString_idempotent (text : string) (maxLength : Z) :
  truncateString (truncateString text maxLength) maxLength
  = truncateString text maxLength.
Proof.
  destruct (truncateString_cases text maxLength) as [[_ Hsame]|[Hlong Hcut]].
  - now rewrite !Hsame.
  - rewrite Hcut.
    destruct (truncateString_cases
                (substring 0 (Z.to_nat (maxLength - 3)) text ++ "...") maxLength)
      as [[_ Hsame]|[Hlong' Hcut']]; [exact Hsame|].
    destruct (Z.ltb_spec maxLength 3) as [Hsmall|Hbig].
    + rewrite Hcut'. replace (Z.to_nat (maxLength - 3)) with 0 by lia.
      now rewrite !substring0_nothing.
    + rewrite length_append, length_substring0 in Hlong' by lia.
      simpl length in Hlong'. lia.
Qed.

(** X10.  The name tag of a pair has at most 50 characters, however long the
    symbols are. *)
Theorem name_tag_at_most_50 (chainId : string) (pair : Pair) :
  length (Public_Name_Tag (toTag chainId pair)) <= 50.
Proof.
  cbn [toTag Public_Name_Tag]. rewrite length_append. simpl (length " Pair").
  set (text := trim (symbol (token0 pair)) ++ "/" ++ trim (symbol (token1 pair))).
  unfold truncateString, substring0.
  destruct (Z.gtb_spec (Z.of_nat (length text)) 45) as [Hlong|Hshort].
  - rewrite length_append, length_substring0 by lia. simpl. lia.
  - lia.
Qed.

End TruncateString.

(** ** More on the validator *)

Section ValidatorMore.

Lemma matchTagRest_later (middle rest : string) :
  matchTagRest (middle ++ ">" ++ rest) = true.
Proof.
  induction middle as [|c middle IH]; [reflexivity|].
  cbn [append matchTagRest] in *. now destruct (Ascii.eqb c ">").
Qed.

(** X11.  A text is rejected exactly when it has a [<] with a [>] somewhere after
    it, whatever stands in between. *)
Theorem containsHtmlOrMarkdown_less_then_greater (text : string) :
  containsHtmlOrMarkdown text = true
  <-> exists before middle rest, text = before ++ "<" ++ middle ++ ">" ++ rest.
Proof.
  unfold containsHtmlOrMarkdown. split.
  - intros H. assert (Htest : regexTagTest text = true)
      by (destruct (regexTagTest text); [reflexivity | discriminate]).
    apply regexTagTest_iff in Htest as (before & inside & rest & -> & _).
    now exists before, inside, rest.
  - intros (before & middle & rest & ->).
    assert (Htest : regexTagTest (before ++ "<" ++ middle ++ ">" ++ rest) = true).
    { induction before as [|c before IH].
      - cbn [append regexTagTest].
        pose proof (matchTagRest_later middle rest) as Hrest.
        cbn [append] in Hrest. now rewrite Hrest.
      - cbn [append regexTagTest] in *. rewrite IH. apply orb_true_r. }
    now rewrite Htest.
Qed.

Lemma matchTagRest_none (text : string) :
  allOf (fun c => negb (Ascii.eqb c ">")) text = true ->
  matchTagRest text = false.
Proof.
  induction text as [|c text IH]; [reflexivity|]. cbn [allOf matchTagRest].
  intros H. apply andb_true_iff in H as [Hc Hrest].
  destruct (Ascii.eqb c ">"); [discriminate Hc | now apply IH].
Qed.

(** X12.  A text without [<], or without [>], is never rejected: Markdown markup
    and a lone angle bracket pass. *)
Theorem containsHtmlOrMarkdown_needs_both (text : string) :
  allOf (fun c => negb (Ascii.eqb c "<")) text = true
  \/ allOf (fun c => negb (Ascii.eqb c ">")) text = true ->
  containsHtmlOrMarkdown text = false.
Proof.
  unfold containsHtmlOrMarkdown.
  intros H. assert (Htest : regexTagTest text = false); [|now rewrite Htest].
  induction text as [|c text IH]; [reflexivity|]. cbn [regexTagTest].
  destruct H as [H|H]; cbn [allOf] in H; apply andb_true_iff in H as [Hc Hrest].
  - destruct (Ascii.eqb c "<"); [discriminate Hc|]. cbn [andb orb].
    apply IH. now left.
  - rewrite (matchTagRest_none text Hrest), andb_false_r. cbn [orb].
    apply IH. now right.
Qed.

Lemma containsHtmlOrMarkdown_needs_both_witness :
  containsHtmlOrMarkdown "**Wrapped** [Ether](https://weth.io) # `x`" = false
  /\ containsHtmlOrMarkdown "a < b" = false.
Proof.
  split.
  - apply (containsHtmlOrMarkdown_needs_both
             "**Wrapped** [Ether](https://weth.io) # `x`"). left; reflexivity.
  - apply (containsHtmlOrMarkdown_needs_both "a < b"). right; reflexivity.
Defined.

Lemma Occurs_append (pattern before s rest : string) :
  Occurs pattern s -> Occurs pattern (before ++ s ++ rest).
Proof.
  intros (b & r & ->). exists (before ++ b), (r ++ rest).
  now rewrite !append_assoc.
Qed.

(** X13.  The validator looks at each field by itself, the public note joins them:
    when the symbol of token0 has a [<] and the name of token1 a [>], the
    note of the pair is a text the validator would reject, although the pair
    may well be valid. *)
Theorem public_note_may_hold_tag (chainId : string) (pair : Pair) :
  Occurs "<" (trim (symbol (token0 pair))) ->
  Occurs ">" (trim (replace "USD//C" "USDC" (name (token1 pair)))) ->
  containsHtmlOrMarkdown (Public_Note (toTag chainId pair)) = true.
Proof.
  intros (b0 & r0 & H0) (b1 & r1 & H1).
  apply containsHtmlOrMarkdown_less_then_greater.
  cbn [toTag Public_Note]. rewrite H0, H1.
  exists ("The pair contract on Uniswap v2 for the "
          ++ trim (replace "USD//C" "USDC" (name (token0 pair))) ++ " (" ++ b0),
         (r0 ++ ") / " ++ b1),
         (r1 ++ " (" ++ trim (symbol (token1 pair)) ++ ") pair.").
  now rewrite !append_assoc.
Qed.

Lemma public_note_may_hold_tag_witness :
  pairIsValid lessThanGreater = true
  /\ containsHtmlOrMarkdown (Public_Note (toTag "1" lessThanGreater)) = true.
Proof.
  split; [reflexivity|].
  apply (public_note_may_hold_tag "1" lessThanGreater).
  - exists "LT", "". reflexivity.
  - exists "Greater ", " Than". reflexivity.
Defined.

End ValidatorMore.

(** ** More on the tags *)

Section Tags.

Lemma append_inj_l (s a b : string) : s ++ a = s ++ b -> a = b.
Proof.
  induction s as [|c s IH]; [trivial|]. cbn [append]. intros [= H]. now apply IH.
Qed.

(** X17.  On one chain, pairs with different ids get different contract
    addresses. *)
Theorem contract_address_injective (chainId : string) (pair1 pair2 : Pair) :
  Contract_Address (toTag chainId pair1) = Contract_Address (toTag chainId pair2) ->
  id pair1 = id pair2.
Proof.
  cbn [toTag Contract_Address]. intros H.
  apply (append_inj_l "eip155:") in H. apply append_inj_l in H.
  now apply (append_inj_l ":") in H.
Qed.

Lemma contract_address_injective_witness :
  id usdcWeth
  = id {| id := "0xb4e16d0168e52d35cacd2c6185b44281ec28c9dc";
          createdAtTimestamp := 0;
          token0 := token "Dai Stablecoin" "DAI";
          token1 := token "Wrapped Ether" "WETH" |}.
Proof.
  apply (contract_address_injective "1" usdcWeth
           {| id := "0xb4e16d0168e52d35cacd2c6185b44281ec28c9dc";
              createdAtTimestamp := 0;
              token0 := token "Dai Stablecoin" "DAI";
              token1 := token "Wrapped Ether" "WETH" |}).
  reflexivity.
Defined.

Lemma after_unchanged (w : World) (entries : list ConsoleEntry) :
  after w entries [] = w <-> entries = [].
Proof.
  split; [|intros ->; apply after_nothing].
  unfold after. destruct w as [c r]. cbn [console requests]. intros [= Hc _].
  apply (app_inv_head c). now rewrite app_nil_r.
Qed.

Lemma rejectedNamesOf_nil (pairs : list Pair) :
  rejectedNamesOf pairs = [] <-> forallb pairIsValid pairs = true.
Proof.
  induction pairs as [|pair pairs IH]; [now split|].
  unfold rejectedNamesOf in *. cbn [flat_map forallb]. unfold pairIsValid at 1.
  destruct (token0Invalid pair), (token1Invalid pair); cbn [orb negb andb app];
    try (split; discriminate). exact IH.
Qed.

(** X18.  [transformPairsToTags] writes nothing to the console exactly when every
    pair is valid, and then there is one tag for every pair. *)
Theorem transformPairsToTags_silent (chainId : string) (pairs : list Pair)
    (w : World) :
  (snd (transformPairsToTags chainId pairs w) = w
   <-> forallb pairIsValid pairs = true)
  /\ (forallb pairIsValid pairs = true ->
      fst (transformPairsToTags chainId pairs w)
      = Return (map (toTag chainId) pairs)).
Proof.
  rewrite transformPairsToTags_run. cbn [fst snd]. split.
  - rewrite after_unchanged, <- rejectedNamesOf_nil. unfold rejectionLog.
    destruct (rejectedNamesOf pairs); split; intros H; try reflexivity;
      discriminate H.
  - intros Hvalid. unfold tagsOf. now rewrite forallb_filter_id.
Qed.

Lemma transformPairsToTags_silent_witness :
  fst (transformPairsToTags "1" [usdcWeth; lessThanGreater] emptyWorld)
  = Return (map (toTag "1") [usdcWeth; lessThanGreater]).
Proof.
  apply (transformPairsToTags_silent "1" [usdcWeth; lessThanGreater] emptyWorld).
  reflexivity.
Defined.

End Tags.

(** ** More on [prepareUrl] *)

Section PrepareUrlMore.

Lemma prepareUrl_returns (chainId apiKey url : string) :
  prepareUrl chainId apiKey = Return url ->
  chainId = "1"
  /\ url = endpointBeforeKey ++ encodeURIComponent apiKey ++ endpointAfterKey.
Proof.
  destruct (ownProperty SUBGRAPH_URLS chainId) as [urls|] eqn:Hown.
  - destruct (ownProperty_SUBGRAPH_URLS _ _ Hown) as [-> _].
    intros [= <-]. split; reflexivity.
  - rewrite (prepareUrl_unsupported chainId apiKey (or_introl Hown)).
    discriminate.
Qed.



Lemma encodeURIComponent_unreserved (s : string) :
  allOf isUnreserved s = true -> encodeURIComponent s = s.
Proof.
  induction s as [|c s IH]; [reflexivity|]. cbn [allOf encodeURIComponent].
  intros H. apply andb_true_iff in H as [Hc Hs].
  unfold encodeUnit. rewrite Hc, (IH Hs). reflexivity.
Qed.

(** X15.  An API key of letters, digits and [- _ . ! ~ * ' ( )] only goes into the
    endpoint unchanged. *)
Theorem prepareUrl_plain_key (apiKey : string) :
  allOf isUnreserved apiKey = true ->
  prepareUrl "1" apiKey
  = Return (endpointBeforeKey ++ apiKey ++ endpointAfterKey).
Proof.
  intros Hkey.
  change (prepareUrl "1" apiKey)
    with (Return (endpointBeforeKey ++ encodeURIComponent apiKey
                  ++ endpointAfterKey)).
  now rewrite (encodeURIComponent_unreserved apiKey Hkey).
Qed.

Lemma prepareUrl_plain_key_witness :
  prepareUrl "1" "3f2a9c-KEY_01" 
  = Return (endpointBeforeKey ++ "3f2a9c-KEY_01" ++ endpointAfterKey).
Proof.
  apply (prepareUrl_plain_key "3f2a9c-KEY_01"). reflexivity.
Defined.

Lemma encodeUnit_safe (c : ascii) : allOf isUriSafe (encodeUnit c) = true.
Proof.
  destruct c as [[] [] [] [] [] [] [] []]; reflexivity.
Qed.

(** X16.  Whatever the API key is, what it adds to the endpoint consists of
    unreserved characters and [%] only: the key cannot add a [/], a [?], a
    [#] or a space to the URL, and the rest of the URL is the template. *)
Theorem prepareUrl_key_is_encoded (chainId apiKey url : string) :
  prepareUrl chainId apiKey = Return url ->
  exists encoded,
    url = endpointBeforeKey ++ encoded ++ endpointAfterKey
    /\ allOf isUriSafe encoded = true
    /\ length apiKey <= length encoded.
Proof.
  intros Hurl. destruct (prepareUrl_returns _ _ _ Hurl) as [_ ->].
  exists (encodeURIComponent apiKey). split; [reflexivity|]. clear Hurl. split.
  - induction apiKey as [|c key IH]; [reflexivity|].
    cbn [encodeURIComponent]. apply allOf_append; [apply encodeUnit_safe|].
    exact IH.
  - induction apiKey as [|c key IH]; [reflexivity|].
    cbn [encodeURIComponent]. rewrite length_append. cbn [length].
    assert (1 <= length (encodeUnit c))
      by (unfold encodeUnit;
          destruct (isUnreserved c); [|destruct (code c <? 128)%N];
          simpl; lia).
    lia.
Qed.

Lemma prepareUrl_key_is_encoded_witness :
  exists encoded,
    endpointBeforeKey ++ "..%2Fadmin%3Fx%3D1%20" ++ endpointAfterKey
    = endpointBeforeKey ++ encoded ++ endpointAfterKey
    /\ allOf isUriSafe encoded = true
    /\ length "../admin?x=1 " <= length encoded.
Proof.
  apply (prepareUrl_key_is_encoded "1" "../admin?x=1 "). reflexivity.
Defined.

End PrepareUrlMore.

(** ** More on [fetchData] *)

Section FetchDataMore.

Variables (url : string) (cursor : number).

Lemma fetch_run (answer : Completion Response) (w : World) :
  fetch (requestFor url cursor) answer w
  = (answer, after w [] [requestFor url cursor]).
Proof.
  unfold fetch, after. cbn [console requests]. now rewrite app_nil_r.
Qed.

Lemma fetchData_unanswered (c : Completion Response) (w : World) :
  (forall response, c <> Return response) ->
  fetchData url cursor c w
  = (match c with
     | Throw t => Throw t
     | _ => Pending
     end, after w [] [requestFor url cursor]).
Proof.
  intros Hc. unfold fetchData. destruct c as [response|t|].
  - now elim (Hc response).
  - now rewrite (bind_Throw _ _ _ _ _ (fetch_run (Throw t) w)).
  - now rewrite (bind_Pending _ _ _ _ (fetch_run Pending w)).
Qed.

Lemma fetchData_unparsed (response : Response) (w : World) :
  ok response = true -> (forall body, json response <> Return body) ->
  fetchData url cursor (Return response) w
  = (match json response with
     | Throw t => Throw t
     | _ => Pending
     end, after w [] [requestFor url cursor]).
Proof.
  intros Hok Hjson. unfold fetchData.
  rewrite (bind_Return _ _ _ _ _ (fetch_run (Return response) w)).
  rewrite Hok. cbn [negb]. destruct (json response) as [body|t|] eqn:Hj.
  - now elim (Hjson body).
  - now apply bind_Throw.
  - now apply bind_Pending.
Qed.


(** X5.  A rejected [fetch] and a rejected [response.json()] reach the caller of
    [fetchData] as they are: no new error is made, one request went out and
    nothing was logged. *)
Theorem fetchData_rejections (response : Response) (t : Thrown) (w : World) :
  fetchData url cursor (Throw t) w
  = (Throw t, after w [] [requestFor url cursor])
  /\ (ok response = true -> json response = Throw t ->
      fetchData url cursor (Return response) w
      = (Throw t, after w [] [requestFor url cursor])).
Proof.
  split.
  - now apply (fetchData_unanswered (Throw t) w).
  - intros Hok Hjson. rewrite (fetchData_unparsed response w Hok).
    + now rewrite Hjson.
    + intros body. rewrite Hjson. discriminate.
Qed.



End FetchDataMore.

Lemma fetchData_rejections_witness :
  fetchData "https://example.org" (Int 7)
    (Return {| ok := true; status := 200;
               json := Throw (ErrorObject "SyntaxError"
                                "Unexpected token < in JSON at position 0") |})
    emptyWorld
  = (Throw (ErrorObject "SyntaxError" "Unexpected token < in JSON at position 0"),
     after emptyWorld [] [requestFor "https://example.org" (Int 7)]).
Proof.
  apply (proj2 (fetchData_rejections "https://example.org" (Int 7)
           {| ok := true; status := 200;
              json := Throw (ErrorObject "SyntaxError"
                               "Unexpected token < in JSON at position 0") |}
           (ErrorObject "SyntaxError" "Unexpected token < in JSON at position 0")
           emptyWorld)); reflexivity.
Defined.

(** ** More on the pagination loop *)

Section Pagination.

Variables chainId url : string.






End Pagination.

Section ReturnTagsMore.






(** X6.  The cursor kept after a full page is the timestamp of its last record,
    whether or not that is the largest of the page, as long as it is below
    10^21 in absolute value. *)
Theorem cursor_is_last_timestamp (front : list Pair) (lastPair : Pair) :
  (Z.abs (createdAtTimestamp lastPair) < 10 ^ 21)%Z ->
  cursorAfter (front ++ [lastPair])%list = Int (createdAtTimestamp lastPair).
Proof.
  intros Hrange. unfold cursorAfter. rewrite last_last.
  now apply parseInt_Number_toString.
Qed.

Lemma cursor_is_last_timestamp_witness :
  cursorAfter ([pairAt 1588610399; pairAt 1588610340] ++ [pairAt 1588610350])%list
  = Int (createdAtTimestamp (pairAt 1588610350)).
Proof.
  apply (cursor_is_last_timestamp [pairAt 1588610399; pairAt 1588610340]
           (pairAt 1588610350)).
  vm_compute. reflexivity.
Defined.

End ReturnTagsMore.
